(** * Streaming anomaly detection: [server.py] and its client

    Two shallow embeddings of [server.py], both translated line by line:
    - over exact real numbers ([ADWIN], [AnomalyDetector], [start_server] at
      the top level), for what the program does whatever its numbers are:
      the shape of the bucket list, the order of the split points, the
      trailing window, the reply that two flags select;
    - over binary64 numbers (module [B64]), for everything that depends on
      the values the program computes: whether a split point triggers,
      whether a value is flagged, whether a call raises.

    Numbers.  Python's [int] is [Z].  In the exact embedding a [float] is a
    real number and [+], [-], [*], [/], [abs], [math.sqrt], [math.log] are
    the exact operations.  In [B64] a [float] is one of the kernel's
    binary64 numbers, with its infinities and NaN: every operation rounds
    to nearest-even, [sum] adds from the left as CPython does up to 3.11,
    [float ** 2] raises OverflowError on an infinite result of a finite
    operand, and [math.log], the C library's function, is a parameter.  In
    both, the operations that raise in Python raise through a result type.

    State.  The methods mutate [self]; here each returns the object as the
    call leaves it, next to its result, also when the call raises.

    I/O.  The server is run on the finite sequence of payloads received so
    far, one per [recv], and yields the trace of what it printed, sent and
    closed.  In the exact embedding a payload is its decoded text and
    [float()] is a parameter; in [B64] a payload may also fail to decode, and
    [float()] is modelled from its documentation ([B64.float_of_str]).

    Client and plot.  After the server come [simulate_data] of
    [simulate_data.py], with its random draws as arguments and [math.sin],
    [math.pi] as the exact sine and pi; the reply handling of [start_client],
    with [str] of a float as a parameter; and [update] of [visualize.py], as
    the sequence of its calls on the axes and the two lists it extends. *)

From Stdlib Require Import Floats.
From Stdlib Require Import String Ascii.
From Stdlib Require Import Reals Lra Lia ZArith Bool Arith List.
Import ListNotations.
Local Open Scope R_scope.
#[local] Set Warnings "-inexact-float".

(** ** Python exceptions and results *)

Inductive exn : Set :=
| ZeroDivisionError
| ValueError.

Inductive result (A : Type) : Type :=
| Ok (a : A)
| Raise (e : exn).

Arguments Ok {A} a.
Arguments Raise {A} e.

Definition bind {A B : Type} (c : result A) (k : A -> result B) : result B :=
  match c with
  | Ok a => k a
  | Raise e => Raise e
  end.

Definition result_map {A B : Type} (f : A -> B) (c : result A) : result B :=
  bind c (fun a => Ok (f a)).

Notation "x <- c ;; k" := (bind c (fun x => k))
  (at level 61, c at next level, right associativity).

(** ** The Python built-ins the server relies on *)

Module Py.

(** [x / y] on floats: raises on a zero divisor. *)
Definition truediv (x y : R) : result R :=
  if Req_EM_T y 0 then Raise ZeroDivisionError else Ok (x / y).

(** [math.log x]: "math domain error" unless [0 < x]. *)
Definition math_log (x : R) : result R :=
  if Rlt_dec 0 x then Ok (ln x) else Raise ValueError.

(** [math.sqrt x]: "math domain error" on a negative argument. *)
Definition math_sqrt (x : R) : result R :=
  if Rle_dec 0 x then Ok (sqrt x) else Raise ValueError.

(** [a > b] on floats. *)
Definition gt (a b : R) : bool :=
  if Rgt_dec a b then true else false.

(** [sum(xs)] starts from 0 and adds from the left. *)
Definition sum (xs : list R) : R := fold_left Rplus xs 0.

(** [sum(ns)] on a list of ints. *)
Definition isum (ns : list Z) : Z := fold_left Z.add ns 0%Z.

(** The slice [xs[i:k]]. *)
Definition slice {A : Type} (i k : nat) (xs : list A) : list A :=
  firstn (k - i) (skipn i xs).

(** [xs[i] = v]; the callers below only write inside the list (Python would
    raise IndexError otherwise), out of range the list is returned as is. *)
Fixpoint set_item {A : Type} (i : nat) (v : A) (xs : list A) : list A :=
  match xs, i with
  | [], _ => []
  | _ :: tl, O => v :: tl
  | x :: tl, S j => x :: set_item j v tl
  end.

(** [del xs[a:b]]. *)
Definition del_slice {A : Type} (a b : nat) (xs : list A) : list A :=
  firstn a xs ++ skipn (Nat.max a b) xs.

End Py.

(** ** ADWIN: the drift detector *)

Record ADWIN : Type := mkADWIN {
  delta : R;                 (* confidence parameter *)
  bucket_row : list R;       (* representative value of each bucket *)
  bucket_sizes : list Z;     (* logical size of each bucket *)
  total : R;
  variance : R;
  width : Z
}.

Definition default_delta : R := 0.002.

(** [ADWIN.__init__] *)
Definition ADWIN_init (d : R) : ADWIN :=
  {| delta := d; bucket_row := []; bucket_sizes := [];
     total := 0; variance := 0; width := 0 |}.

(** [ADWIN.insert_element] *)
Definition insert_element (s : ADWIN) (value : R) : ADWIN :=
  {| delta := delta s;
     bucket_row := bucket_row s ++ [value];
     bucket_sizes := bucket_sizes s ++ [1%Z];
     total := total s + value;
     variance := variance s + value * value;
     width := width s + 1 |}.

(** The inner [while] of [compress_buckets]: starting from [k], advance while
    [k < len(bucket_sizes)] and [bucket_sizes[i] == bucket_sizes[k]]; [si] is
    [bucket_sizes[i]], which the loop does not change. *)
Fixpoint run_end (sizes : list Z) (si : Z) (k fuel : nat) : nat :=
  match fuel with
  | O => k
  | S fuel' =>
      match nth_error sizes k with
      | Some sk => if (si =? sk)%Z then run_end sizes si (S k) fuel' else k
      | None => k
      end
  end.

(** The outer [while] of [compress_buckets].  A run of length one moves [i] to
    [k] and then the trailing [i += 1] moves it once more; a longer run is
    merged in place (here [k - i >= 2], so the division is defined) and the
    scan resumes right after the merged bucket.  Every iteration lowers
    [len(bucket_sizes) - i], so [length sizes] iterations are enough
    (see [compress_loop_fuel]). *)
Fixpoint compress_loop (fuel i : nat) (row : list R) (sizes : list Z)
  : list R * list Z :=
  match fuel with
  | O => (row, sizes)
  | S fuel' =>
      match nth_error sizes i with
      | None => (row, sizes)
      | Some si =>
          let k := run_end sizes si i (length sizes) in
          if (k =? i + 1)%nat then compress_loop fuel' (k + 1) row sizes
          else
            let new_bucket := Py.sum (Py.slice i k row) / INR (k - i) in
            let row1 := Py.set_item i new_bucket row in
            let sizes1 := Py.set_item i (si * Z.of_nat (k - i))%Z sizes in
            compress_loop fuel' (i + 1)
              (Py.del_slice (i + 1) k row1) (Py.del_slice (i + 1) k sizes1)
      end
  end.

(** [ADWIN.compress_buckets]: only the two bucket lists change. *)
Definition compress_buckets (s : ADWIN) : ADWIN :=
  let '(row, sizes) :=
    compress_loop (length (bucket_sizes s)) 0 (bucket_row s) (bucket_sizes s) in
  {| delta := delta s; bucket_row := row; bucket_sizes := sizes;
     total := total s; variance := variance s; width := width s |}.

(** [sum(x * y for x, y in zip(row, sizes))] *)
Definition weighted (row : list R) (sizes : list Z) : R :=
  Py.sum (map (fun p => fst p * IZR (snd p)) (combine row sizes)).

(** [sum(x * x * y for x, y in zip(row, sizes))] *)
Definition weighted_sq (row : list R) (sizes : list Z) : R :=
  Py.sum (map (fun p => fst p * fst p * IZR (snd p)) (combine row sizes)).

(** Lines 80-81: [m = 1 / (1 / n0 + 1 / n1)] and
    [eps = math.sqrt(2 * m * math.log(4 / self.delta) / n0 / n1)], evaluated
    after the guard has made [n0] and [n1] non-zero. *)
Definition eps_cut (d : R) (n0 n1 : Z) : result R :=
  m <- Py.truediv 1 (1 / IZR n0 + 1 / IZR n1) ;;
  q <- Py.truediv 4 d ;;
  l <- Py.math_log q ;;
  Py.math_sqrt (2 * m * l / IZR n0 / IZR n1).

(** Lines 78-82 at split point [i]: is [abs(u0 - u1) > eps]? *)
Definition split_exceeds (s : ADWIN) (i : nat) (n0 n1 : Z) : result bool :=
  let u0 := weighted (firstn i (bucket_row s)) (firstn i (bucket_sizes s)) / IZR n0 in
  let u1 := weighted (skipn i (bucket_row s)) (skipn i (bucket_sizes s)) / IZR n1 in
  eps <- eps_cut (delta s) n0 n1 ;;
  Ok (Py.gt (Rabs (u0 - u1)) eps).

(** Lines 84-88: the window is cut down to the buckets from [i] onward. *)
Definition shrink (s : ADWIN) (i : nat) (n1 : Z) : ADWIN :=
  {| delta := delta s;
     bucket_row := skipn i (bucket_row s);
     bucket_sizes := skipn i (bucket_sizes s);
     total := weighted (skipn i (bucket_row s)) (skipn i (bucket_sizes s));
     variance := weighted_sq (skipn i (bucket_row s)) (skipn i (bucket_sizes s));
     width := n1 |}.

(** The [for] loop of [detect_change] over the remaining split points. *)
Fixpoint detect_loop (s : ADWIN) (idxs : list nat) : result bool * ADWIN :=
  match idxs with
  | [] => (Ok false, s)
  | i :: rest =>
      let n0 := Py.isum (firstn i (bucket_sizes s)) in
      let n1 := Py.isum (skipn i (bucket_sizes s)) in
      if ((n0 =? 0) || (n1 =? 0))%Z then detect_loop s rest
      else
        match split_exceeds s i n0 n1 with
        | Raise e => (Raise e, s)
        | Ok true => (Ok true, shrink s i n1)
        | Ok false => detect_loop s rest
        end
  end.

(** [ADWIN.detect_change]: [for i in range(1, len(self.bucket_sizes))]. *)
Definition detect_change (s : ADWIN) : result bool * ADWIN :=
  detect_loop s (seq 1 (length (bucket_sizes s) - 1)).

(** [ADWIN.update] *)
Definition update (s : ADWIN) (value : R) : result bool * ADWIN :=
  detect_change (compress_buckets (insert_element s value)).

(** Feeding a stream to a detector, one [update] call per value: the results
    of the calls in order, and the final state. *)
Fixpoint updates (s : ADWIN) (values : list R) : list (result bool) * ADWIN :=
  match values with
  | [] => ([], s)
  | v :: rest =>
      let '(r, s1) := update s v in
      let '(rs, s2) := updates s1 rest in
      (r :: rs, s2)
  end.

(** A state of the detector constructed with [delta = d] after some stream. *)
Definition reachable_from (d : R) (s : ADWIN) : Prop :=
  exists values, s = snd (updates (ADWIN_init d) values).

(** A state of [ADWIN()], the default detector, after some stream. *)
Definition reachable (s : ADWIN) : Prop := reachable_from default_delta s.

(** ** AnomalyDetector: trailing window and Z-score *)

Record AnomalyDetector : Type := mkAnomalyDetector {
  adwin : ADWIN;
  window : list R;           (* the deque, oldest value first *)
  maxlen : nat;              (* the deque's maxlen, [window_size] *)
  z_threshold : R
}.

(** [AnomalyDetector.__init__] *)
Definition AnomalyDetector_init (window_size : nat) (z : R) : AnomalyDetector :=
  {| adwin := ADWIN_init default_delta; window := [];
     maxlen := window_size; z_threshold := z |}.

(** [deque.append] on a deque bounded by [n]: the oldest items fall out on the
    left, so the last [n] items stay. *)
Definition deque_append (n : nat) (w : list R) (x : R) : list R :=
  skipn (length (w ++ [x]) - n) (w ++ [x]).

(** Lines 124-129.  The second division by [len(self.window)] and the
    division by [std_dev] follow a successful first division and a positive
    [std_dev]; [math.sqrt] is only called on [variance > 1e-6]. *)
Definition z_test (w : list R) (value z : R) : result bool :=
  mean <- Py.truediv (Py.sum w) (INR (length w)) ;;
  let var := Py.sum (map (fun x => (x - mean) ^ 2) w) / INR (length w) in
  let std_dev := if Py.gt var 1e-6 then sqrt var else 1e-6 in
  let z_score := Rabs ((value - mean) / std_dev) in
  Ok (Py.gt z_score z).

(** [AnomalyDetector.detect_anomaly]: the pair [(is_anomaly, concept_drift)]
    and the detector as the call leaves it. *)
Definition detect_anomaly (d : AnomalyDetector) (value : R)
  : result (bool * bool) * AnomalyDetector :=
  let w := deque_append (maxlen d) (window d) value in
  let '(r, a) := update (adwin d) value in
  let d1 := {| adwin := a; window := w; maxlen := maxlen d;
               z_threshold := z_threshold d |} in
  (change_detected <- r ;;
   if (length w <? maxlen d)%nat then Ok (false, change_detected)
   else
     is_anomaly <- z_test w value (z_threshold d) ;;
     Ok (is_anomaly, change_detected),
   d1).

(** One [detect_anomaly] call per value. *)
Fixpoint detections (d : AnomalyDetector) (values : list R)
  : list (result (bool * bool)) * AnomalyDetector :=
  match values with
  | [] => ([], d)
  | v :: rest =>
      let '(r, d1) := detect_anomaly d v in
      let '(rs, d2) := detections d1 rest in
      (r :: rs, d2)
  end.

(** ** The detection server *)

(** Text written by the server: a literal, or an f-string made of a literal
    prefix and a float in its default textual form. *)
Inductive message : Type :=
| Text (s : string)
| Fmt (prefix : string) (value : R).

Inductive event : Type :=
| Log (m : message)          (* print *)
| Send (m : message)         (* client_socket.send *)
| CloseClient                (* client_socket.close() *)
| CloseServer.               (* server_socket.close() *)

(** How one pass through the loop body ends. *)
Inductive step : Type :=
| Break                                  (* the loop is left *)
| Continue (d : AnomalyDetector)         (* next iteration *)
| Uncaught (e : exn).                    (* an exception leaves [start_server] *)

(** How the loop stands after a finite sequence of received payloads. *)
Inductive status : Type :=
| LoopLeft                               (* [break] was reached *)
| Receiving (d : AnomalyDetector)        (* blocked in [recv] *)
| Died (e : exn).                        (* an exception went uncaught *)

Section Server.

(** Python's [float(text)]; [None] stands for [ValueError]. *)
Variable float_of : string -> option R.

(** Lines 161-166: the reply, in priority order. *)
Definition response (is_anomaly concept_drift : bool) (data_point : R) : message :=
  if is_anomaly then Fmt "Anomaly detected: " data_point
  else if concept_drift then Fmt "Concept drift detected: " data_point
  else Fmt "Data received: " data_point.

(** The [except ValueError] handler, lines 169-171. *)
Definition invalid_data (data : string) : list event :=
  [Log (Text ("Invalid data received: " ++ data)); Send (Text "Invalid data")].

(** The loop body, lines 148-171, on the decoded payload [data]. *)
Definition serve_one (d : AnomalyDetector) (data : string) : list event * step :=
  if ((data =? "") || (data =? "exit"))%string then
    ([Log (Text "Client has disconnected.")], Break)
  else
    match float_of data with
    | None => (invalid_data data, Continue d)
    | Some data_point =>
        let '(r, d1) := detect_anomaly d data_point in
        match r with
        | Ok (is_anomaly, concept_drift) =>
            ([Log (Fmt "Received data: " data_point);
              Send (response is_anomaly concept_drift data_point)],
             Continue d1)
        | Raise ValueError =>
            (Log (Fmt "Received data: " data_point) :: invalid_data data,
             Continue d1)
        | Raise e => ([Log (Fmt "Received data: " data_point)], Uncaught e)
        end
    end.

(** The [while True] loop over the payloads received so far; a payload is the
    decoded text of one [recv]. *)
Fixpoint serve (d : AnomalyDetector) (received : list string)
  : list event * status :=
  match received with
  | [] => ([], Receiving d)
  | data :: rest =>
      let '(out, st) := serve_one d data in
      match st with
      | Break => (out, LoopLeft)
      | Continue d1 => let '(out1, fin) := serve d1 rest in (out ++ out1, fin)
      | Uncaught e => (out, Died e)
      end
  end.

(** [start_server], from the accepted connection on: the loop, and once it is
    left the two [close()] calls of lines 173-174. *)
Definition start_server (received : list string) : list event * status :=
  let '(out, fin) := serve (AnomalyDetector_init 50 3) received in
  match fin with
  | LoopLeft => (out ++ [CloseClient; CloseServer], LoopLeft)
  | _ => (out, fin)
  end.

End Server.

(** A reader of plain decimal numerals ([-12], [42.5], [.5]): on these it
    returns the number [float()] returns, and it rejects every other text.
    It stands for [float_of] where the server is run on concrete payloads. *)
Definition digit_of (c : ascii) : option Z :=
  let n := nat_of_ascii c in
  if ((48 <=? n) && (n <=? 57))%nat then Some (Z.of_nat (n - 48)) else None.

Fixpoint read_digits (s : string) (acc : Z) (count : nat)
  : option (Z * nat * string) :=
  match s with
  | EmptyString => Some (acc, count, EmptyString)
  | String c tl =>
      match digit_of c with
      | Some d => read_digits tl (10 * acc + d)%Z (S count)
      | None => Some (acc, count, s)
      end
  end.

Definition read_unsigned (s : string) : option R :=
  match read_digits s 0%Z O with
  | Some (ip, n1, EmptyString) =>
      if (n1 =? 0)%nat then None else Some (IZR ip)
  | Some (ip, n1, String "." tl) =>
      match read_digits tl ip O with
      | Some (mant, n2, EmptyString) =>
          if (n1 + n2 =? 0)%nat then None
          else Some (IZR mant / IZR (10 ^ Z.of_nat n2))
      | _ => None
      end
  | _ => None
  end.

Definition decimal_float (s : string) : option R :=
  match s with
  | String "-" tl => option_map Ropp (read_unsigned tl)
  | String "+" tl => read_unsigned tl
  | _ => read_unsigned s
  end.

(** ** Vocabulary of the properties *)

(** The class invariant of [ADWIN]: the two bucket lists run in parallel,
    every bucket holds at least one element, and [delta] lies in (0, 4], where
    [math.log(4 / delta)] is defined and not negative. *)
Definition well_formed (s : ADWIN) : Prop :=
  length (bucket_row s) = length (bucket_sizes s) /\
  Forall (fun z => (0 < z)%Z) (bucket_sizes s) /\
  0 < delta s <= 4.

(** The quantities of the split test at split point [i]. *)
Definition n0_at (s : ADWIN) (i : nat) : Z := Py.isum (firstn i (bucket_sizes s)).
Definition n1_at (s : ADWIN) (i : nat) : Z := Py.isum (skipn i (bucket_sizes s)).
Definition u0_at (s : ADWIN) (i : nat) : R :=
  weighted (firstn i (bucket_row s)) (firstn i (bucket_sizes s)) / IZR (n0_at s i).
Definition u1_at (s : ADWIN) (i : nat) : R :=
  weighted (skipn i (bucket_row s)) (skipn i (bucket_sizes s)) / IZR (n1_at s i).
Definition eps_at (s : ADWIN) (i : nat) : R :=
  let n0 := IZR (n0_at s i) in
  let n1 := IZR (n1_at s i) in
  let m := 1 / (1 / n0 + 1 / n1) in
  sqrt (2 * m * ln (4 / delta s) / n0 / n1).

(** Split point [i] triggers: [|u0 - u1| > eps]. *)
Definition triggers (s : ADWIN) (i : nat) : Prop :=
  Rabs (u0_at s i - u1_at s i) > eps_at s i.

(** [i] is the first split point of the scan [1 .. bucket count - 1] that
    triggers. *)
Definition first_trigger (s : ADWIN) (i : nat) : Prop :=
  (1 <= i < length (bucket_sizes s))%nat /\
  triggers s i /\
  forall j, (1 <= j < i)%nat -> ~ triggers s j.

(** Consistency of the aggregate fields with the bucket list. *)
Definition width_consistent (s : ADWIN) : Prop :=
  width s = Py.isum (bucket_sizes s).
Definition total_consistent (s : ADWIN) : Prop :=
  total s = weighted (bucket_row s) (bucket_sizes s).
Definition variance_consistent (s : ADWIN) : Prop :=
  variance s = weighted_sq (bucket_row s) (bucket_sizes s).
Definition consistent (s : ADWIN) : Prop :=
  width_consistent s /\ total_consistent s /\ variance_consistent s.

(** The part of the consistency that [update] maintains. *)
Definition tracked (s : ADWIN) : Prop :=
  length (bucket_row s) = length (bucket_sizes s) /\
  width_consistent s /\ total_consistent s.

(** Every bucket holds the same representative value [c]. *)
Definition uniform (c : R) (s : ADWIN) : Prop := Forall (eq c) (bucket_row s).

(** A sequence of sizes that never decreases from one bucket to the next. *)
Fixpoint nondecreasing (sizes : list Z) : bool :=
  match sizes with
  | a :: (b :: _) as tl => (a <=? b)%Z && nondecreasing tl
  | _ => true
  end.

(** A stream during which no [update] call reported a change. *)
Definition quiet (d : R) (values : list R) : Prop :=
  Forall (fun r => r = Ok false) (fst (updates (ADWIN_init d) values)).

(** The arithmetic mean and the population variance of a window. *)
Definition mean_of (w : list R) : R := fold_right Rplus 0 w / INR (length w).
Definition pvariance_of (w : list R) : R :=
  fold_right Rplus 0 (map (fun x => Rsqr (x - mean_of w)) w) / INR (length w).

(** A payload that ends the session. *)
Definition terminator (data : string) : Prop := data = ""%string \/ data = "exit"%string.

(** ** The scan of [compress_buckets], by recursion on the buckets ahead

    [compress_loop] never touches the buckets before [i]; what it does to the
    buckets from [i] onward is [compress_from] ([compress_loop_from]). *)

(** How many leading entries of [sizes] equal [s]. *)
Fixpoint run_length (s : Z) (sizes : list Z) : nat :=
  match sizes with
  | x :: tl => if (s =? x)%Z then S (run_length s tl) else O
  | [] => O
  end.

Fixpoint compress_from (fuel : nat) (row : list R) (sizes : list Z)
  : list R * list Z :=
  match fuel with
  | O => (row, sizes)
  | S fuel' =>
      match sizes with
      | [] => (row, sizes)
      | s :: tl =>
          let n := S (run_length s tl) in
          if (n =? 1)%nat then
            let '(r, z) := compress_from fuel' (skipn 2 row) (skipn 2 sizes) in
            (firstn 2 row ++ r, firstn 2 sizes ++ z)
          else
            let '(r, z) := compress_from fuel' (skipn n row) (skipn n sizes) in
            (Py.sum (firstn n row) / INR n :: r, (s * Z.of_nat n)%Z :: z)
      end
  end.

(** The sizes alone: what [compress_buckets] does to [bucket_sizes] does not
    depend on the values ([compress_from_sizes]). *)
Fixpoint sizes_from (fuel : nat) (sizes : list Z) : list Z :=
  match fuel with
  | O => sizes
  | S fuel' =>
      match sizes with
      | [] => sizes
      | s :: tl =>
          let n := S (run_length s tl) in
          if (n =? 1)%nat then firstn 2 sizes ++ sizes_from fuel' (skipn 2 sizes)
          else (s * Z.of_nat n)%Z :: sizes_from fuel' (skipn n sizes)
      end
  end.

Definition compress_sizes (sizes : list Z) : list Z :=
  sizes_from (length sizes) sizes.

(** The bucket sizes after an [update] that reports no change: a unit bucket
    is appended and the scan runs once. *)
Definition grow (sizes : list Z) : list Z := compress_sizes (sizes ++ [1%Z]).

(** One pass of the scan as a relation between the bucket lists before and
    after: a bucket whose successor has another size is kept together with
    that successor, which the scan steps over; a run of [n >= 2] buckets of
    one size [s] becomes one bucket holding their mean, of size [s * n]. *)
Inductive scan : list R -> list Z -> list R -> list Z -> Prop :=
| scan_nil : scan [] [] [] []
| scan_last (x : R) (s : Z) : scan [x] [s] [x] [s]
| scan_skip (x y : R) (s t : Z) (row : list R) (sizes : list Z)
    (row' : list R) (sizes' : list Z) :
    s <> t ->
    scan row sizes row' sizes' ->
    scan (x :: y :: row) (s :: t :: sizes) (x :: y :: row') (s :: t :: sizes')
| scan_merge (run : list R) (s : Z) (row : list R) (sizes : list Z)
    (row' : list R) (sizes' : list Z) :
    (2 <= length run)%nat ->
    scan row sizes row' sizes' ->
    scan (run ++ row) (repeat s (length run) ++ sizes)
         (Py.sum run / INR (length run) :: row')
         ((s * Z.of_nat (length run))%Z :: sizes').

(** The sizes a detector goes through while no change is reported: pairs
    [2; 1], followed by nothing, by a single 1 or by a single 2. *)
Fixpoint pairs (j : nat) : list Z :=
  match j with
  | O => []
  | S j' => 2%Z :: 1%Z :: pairs j'
  end.

Inductive settled : list Z -> Prop :=
| settled_pairs (j : nat) : settled (pairs j)
| settled_one (j : nat) : settled (pairs j ++ [1%Z])
| settled_two (j : nat) : settled (pairs j ++ [2%Z]).

(** ** Concrete states and streams used below *)

(** The two sums the aggregate fields stand for, written out bucket by
    bucket: each value, or its square, weighted by the size of its bucket. *)
Fixpoint size_weighted (row : list R) (sizes : list Z) : R :=
  match row, sizes with
  | x :: row', z :: sizes' => x * IZR z + size_weighted row' sizes'
  | _, _ => 0
  end.

Fixpoint size_weighted_squares (row : list R) (sizes : list Z) : R :=
  match row, sizes with
  | x :: row', z :: sizes' => x * x * IZR z + size_weighted_squares row' sizes'
  | _, _ => 0
  end.

(** The state on which the fifth [update] of the stream 0, 0, 1.5, -1, -3
    calls [detect_change]: the new value inserted and the buckets
    compressed. *)
Definition late_hit_state : ADWIN :=
  compress_buckets
    (insert_element (snd (updates (ADWIN_init default_delta) [0; 0; 15 / 10; -1]))
                    (-3)).

(** The gap [u0 - u1] of split point [i], read off the two bucket lists. *)
Definition gap (row : list R) (sizes : list Z) (i : nat) : R :=
  weighted (firstn i row) (firstn i sizes) / IZR (Py.isum (firstn i sizes))
  - weighted (skipn i row) (skipn i sizes) / IZR (Py.isum (skipn i sizes)).

(** What the scan reads of a state: [delta] and the two bucket lists. *)
Definition shows (s : ADWIN) (row : list R) (sizes : list Z) : Prop :=
  well_formed s /\ delta s = default_delta /\
  bucket_row s = row /\ bucket_sizes s = sizes.

(** A stream with a slow drift at its beginning and a jump at its end. *)
Definition drifting_stream : list R :=
  [2; 2; 0; 2; -2; 0; 0; 0; 0; 0; 0; 1000].

(** Three unit buckets holding 1, 2 and 6. *)
Definition three_units : ADWIN :=
  {| delta := default_delta; bucket_row := [1; 2; 6];
     bucket_sizes := [1%Z; 1%Z; 1%Z]; total := 9; variance := 41; width := 3 |}.

(** ** Vocabulary for sessions *)

(** The messages sent to the client, in the order of the [send] calls. *)
Fixpoint replies (out : list event) : list message :=
  match out with
  | [] => []
  | Send m :: rest => m :: replies rest
  | _ :: rest => replies rest
  end.

(** * The client, [simulate_data.py] *)

(** ** [simulate_data] *)

(** The random draws of one [simulate_data] call, in the order of the calls:
    [random.uniform(-2, 2)], [random.random()] and, used only when an anomaly
    is injected, [random.uniform(30, 40)]. *)
Record draws : Type := { noise : R; chance : R; bump : R }.

(** Line 25. *)
Definition regular_pattern (t : Z) : R := 50 + 10 * sin (2 * PI * IZR t / 24).

(** Line 28. *)
Definition seasonal_pattern (t : Z) : R := 10 * sin (2 * PI * IZR t / 365).

(** Lines 31-38: the value and the flag [is_anomaly]. *)
Definition simulate_data (t : Z) (r : draws) : R * bool :=
  if Rlt_dec (chance r) 0.05 then
    (regular_pattern t + seasonal_pattern t + noise r + bump r, true)
  else
    (regular_pattern t + seasonal_pattern t + noise r, false).

(** ** The reply handling of [start_client] *)

Module Client.

(** The exceptions of lines 62 and 65: the index [[1]] and [float]. *)
Inductive exn : Type := IndexError | ValueError.

(** [s.startswith(p)]. *)
Fixpoint startswith (p s : string) : bool :=
  match p with
  | EmptyString => true
  | String a p' =>
      match s with
      | EmptyString => false
      | String b s' => Ascii.eqb a b && startswith p' s'
      end
  end.

(** [needle in s]. *)
Fixpoint contains (needle s : string) : bool :=
  startswith needle s ||
  match s with
  | EmptyString => false
  | String _ rest => contains needle rest
  end.

(** [s.split(sep)] for a non-empty [sep]: the text is cut at the occurrences
    of [sep], found from the left and not overlapping.  [skip] counts the
    characters of an occurrence still to pass, [cur] is the piece being
    read. *)
Fixpoint split_from (sep : string) (skip : nat) (cur s : string) : list string :=
  match s with
  | EmptyString => [cur]
  | String c rest =>
      match skip with
      | S skip' => split_from sep skip' cur rest
      | O =>
          if startswith sep s then
            cur :: split_from sep (String.length sep - 1) EmptyString rest
          else split_from sep 0 (cur ++ String c EmptyString) rest
      end
  end.

Definition split (sep s : string) : list string :=
  split_from sep 0 EmptyString s.

Section Loop.

(** Python's [float(text)]; [None] stands for [ValueError]. *)
Variable float_of : string -> option R.

(** Lines 61-66: the entry that one response puts on [data_queue], or the
    exception that leaves the loop (only [KeyboardInterrupt] is caught). *)
Definition enqueue (response : string) : exn + (R * bool) :=
  if contains "Anomaly detected" response then
    match nth_error (split ": " response) 1 with
    | None => inl IndexError
    | Some text =>
        match float_of text with
        | None => inl ValueError
        | Some anomaly_value => inr (anomaly_value, true)
        end
    end
  else
    match nth_error (split ": " response) 1 with
    | None => inl IndexError
    | Some text =>
        match float_of text with
        | None => inl ValueError
        | Some normal_value => inr (normal_value, false)
        end
    end.

End Loop.

End Client.

(** The text of a message on the wire: an f-string formats its float with
    [str], here [show]. *)
Definition wire (show : R -> string) (m : message) : string :=
  match m with
  | Text s => s
  | Fmt prefix value => prefix ++ show value
  end.

(** * The plot, [visualize.py] *)

Module Visualize.

(** The two module-level lists. *)
Record history : Type := { data_stream : list R; anomalies : list (option R) }.

(** Both lists start empty (lines 6-7). *)
Definition initial : history := {| data_stream := []; anomalies := [] |}.

(** The calls on [ax] that one [update] makes. *)
Inductive call : Type :=
| Clear
| Plot (ys : list R)
| Scatter (xs : list nat) (ys : list R)
| Legend
| SetTitle
| SetXlabel
| SetYlabel.

(** Lines 18-21: the loop that empties the queue, oldest entry first. *)
Fixpoint drain (queue : list (R * bool)) (h : history) : history :=
  match queue with
  | [] => h
  | (data_point, is_anomaly) :: rest =>
      drain rest
        {| data_stream := data_stream h ++ [data_point];
           anomalies := anomalies h
                        ++ [if is_anomaly then Some data_point else None] |}
  end.

(** [enumerate(xs)] from the index [start]. *)
Fixpoint enumerate {A : Type} (start : nat) (xs : list A) : list (nat * A) :=
  match xs with
  | [] => []
  | x :: rest => (start, x) :: enumerate (S start) rest
  end.

(** Line 31. *)
Definition anomaly_indices (marks : list (option R)) : list nat :=
  flat_map (fun p => match snd p with Some _ => [fst p] | None => [] end)
           (enumerate 0 marks).

(** Line 32. *)
Definition anomaly_values (marks : list (option R)) : list R :=
  flat_map (fun val => match val with Some v => [v] | None => [] end) marks.

(** [update(frame)] with [queue] the entries waiting on [data_queue]: the
    calls on [ax], in order, and the two lists as the call leaves them. *)
Definition update (queue : list (R * bool)) (h : history)
  : list call * history :=
  let h1 := drain queue h in
  ([Clear; Plot (data_stream h1)]
   ++ match anomalies h1 with
      | [] => []
      | _ :: _ => [Scatter (anomaly_indices (anomalies h1))
                           (anomaly_values (anomalies h1))]
      end
   ++ [Legend; SetTitle; SetXlabel; SetYlabel],
   h1).

(** The animation: one [update] per frame, [queues] giving the entries that
    each frame finds waiting. *)
Fixpoint frames (queues : list (list (R * bool))) (h : history) : history :=
  match queues with
  | [] => h
  | queue :: rest => frames rest (snd (update queue h))
  end.

End Visualize.

(** * The same program on binary64 numbers

    The definitions above compute with exact real numbers.  Module [B64]
    embeds [server.py] once more, line by line as above, on the kernel's
    binary64 floats: every operation rounds to nearest-even as Python's does,
    sums overflow to an infinity, NaN compares false, and [float ** int]
    raises OverflowError when a finite operand gives an infinite result.
    Whatever depends on the values the program computes - which split point
    triggers, whether a value is flagged, whether a call raises - is settled
    here; the exact-arithmetic definitions carry the statements about the
    shape of the bucket list and the control flow, which do not.

    [sum] adds from the left, starting from 0, as CPython does up to 3.11.
    [math.log] is the C library's function and stays a parameter. *)

Module B64.

Local Open Scope float_scope.

Inductive exn : Set :=
| ZeroDivisionError
| ValueError
| OverflowError
| UnicodeDecodeError.

Inductive result (A : Type) : Type :=
| Ok (a : A)
| Raise (e : exn).

Arguments Ok {A} a.
Arguments Raise {A} e.

Definition bind {A B : Type} (c : result A) (k : A -> result B) : result B :=
  match c with
  | Ok a => k a
  | Raise e => Raise e
  end.

Local Notation "x <-- c ;; k" := (bind c (fun x => k))
  (at level 61, c at next level, right associativity).

(** A generator consumed to its end: the first element on which [f] raises
    ends the iteration. *)
Fixpoint mapM {A B : Type} (f : A -> result B) (xs : list A) : result (list B) :=
  match xs with
  | [] => Ok []
  | x :: tl => y <-- f x ;; ys <-- mapM f tl ;; Ok (y :: ys)
  end.

(** [float(n)] for an int [n], rounded to nearest-even (exact below 2^53;
    the OverflowError of ints beyond the float range is left out). *)
Definition of_int (n : Z) : float :=
  SF2Prim (binary_normalize prec emax n 0 false).

(** [x / y] on floats: raises on a zero divisor. *)
Definition truediv (x y : float) : result float :=
  if y =? 0 then Raise ZeroDivisionError else Ok (x / y).

(** [x / n] for a float [x] and an int [n]: raises when [n == 0] (an int
    converts to the float zero only when it is 0). *)
Definition truediv_int (x : float) (n : Z) : result float :=
  if (n =? 0)%Z then Raise ZeroDivisionError else Ok (x / of_int n).

(** [x ** 2]: the C library's [pow(x, 2.0)], taken as the correctly rounded
    square; CPython raises OverflowError when the result of a finite operand
    is infinite. *)
Definition pow2 (x : float) : result float :=
  if is_infinity (x * x) && negb (is_infinity x) then Raise OverflowError
  else Ok (x * x).

(** [a > b] on floats: False as soon as one side is NaN. *)
Definition gt (a b : float) : bool := b <? a.

(** [sum(xs)] starts from the int 0 and adds from the left. *)
Definition sum (xs : list float) : float := fold_left PrimFloat.add xs 0.

Section ADWIN.

(** The C library's [log], behind [math.log]. *)
Variable log : float -> float.

(** [math.log x]: "math domain error" when [x <= 0]. *)
Definition math_log (x : float) : result float :=
  if x <=? 0 then Raise ValueError else Ok (log x).

(** [math.sqrt x]: "math domain error" on a negative argument. *)
Definition math_sqrt (x : float) : result float :=
  if x <? 0 then Raise ValueError else Ok (PrimFloat.sqrt x).

Record ADWIN : Type := mkADWIN {
  delta : float;
  bucket_row : list float;
  bucket_sizes : list Z;
  total : float;
  variance : float;
  width : Z
}.

(** The literal 0.002 of line 15. *)
Definition default_delta : float := 0x1.0624dd2f1a9fcp-9.

(** [ADWIN.__init__] *)
Definition ADWIN_init (d : float) : ADWIN :=
  {| delta := d; bucket_row := []; bucket_sizes := [];
     total := 0; variance := 0; width := 0 |}.

(** [ADWIN.insert_element] *)
Definition insert_element (s : ADWIN) (value : float) : ADWIN :=
  {| delta := delta s;
     bucket_row := bucket_row s ++ [value];
     bucket_sizes := bucket_sizes s ++ [1%Z];
     total := total s + value;
     variance := variance s + value * value;
     width := width s + 1 |}.

(** The outer [while] of [compress_buckets], as [compress_loop] above, the
    merged bucket being the rounded sum divided by the run length. *)
Fixpoint compress_loop (fuel i : nat) (row : list float) (sizes : list Z)
  : list float * list Z :=
  match fuel with
  | O => (row, sizes)
  | S fuel' =>
      match nth_error sizes i with
      | None => (row, sizes)
      | Some si =>
          let k := run_end sizes si i (length sizes) in
          if (k =? i + 1)%nat then compress_loop fuel' (k + 1) row sizes
          else
            let new_bucket := sum (Py.slice i k row) / of_int (Z.of_nat (k - i)) in
            let row1 := Py.set_item i new_bucket row in
            let sizes1 := Py.set_item i (si * Z.of_nat (k - i))%Z sizes in
            compress_loop fuel' (i + 1)
              (Py.del_slice (i + 1) k row1) (Py.del_slice (i + 1) k sizes1)
      end
  end.

(** [ADWIN.compress_buckets] *)
Definition compress_buckets (s : ADWIN) : ADWIN :=
  let '(row, sizes) :=
    compress_loop (length (bucket_sizes s)) 0 (bucket_row s) (bucket_sizes s) in
  {| delta := delta s; bucket_row := row; bucket_sizes := sizes;
     total := total s; variance := variance s; width := width s |}.

(** [sum(x * y for x, y in zip(row, sizes))] *)
Definition weighted (row : list float) (sizes : list Z) : float :=
  sum (map (fun p => fst p * of_int (snd p)) (combine row sizes)).

(** [sum(x * x * y for x, y in zip(row, sizes))] *)
Definition weighted_sq (row : list float) (sizes : list Z) : float :=
  sum (map (fun p => fst p * fst p * of_int (snd p)) (combine row sizes)).

(** Lines 80-81, after the guard has made [n0] and [n1] non-zero. *)
Definition eps_cut (d : float) (n0 n1 : Z) : result float :=
  m <-- truediv 1 (of_int 1 / of_int n0 + of_int 1 / of_int n1) ;;
  q <-- truediv 4 d ;;
  l <-- math_log q ;;
  math_sqrt (2 * m * l / of_int n0 / of_int n1).

(** Lines 78-82 at split point [i]. *)
Definition split_exceeds (s : ADWIN) (i : nat) (n0 n1 : Z) : result bool :=
  let u0 := weighted (firstn i (bucket_row s)) (firstn i (bucket_sizes s))
            / of_int n0 in
  let u1 := weighted (skipn i (bucket_row s)) (skipn i (bucket_sizes s))
            / of_int n1 in
  eps <-- eps_cut (delta s) n0 n1 ;;
  Ok (gt (PrimFloat.abs (u0 - u1)) eps).

(** Lines 84-88. *)
Definition shrink (s : ADWIN) (i : nat) (n1 : Z) : ADWIN :=
  {| delta := delta s;
     bucket_row := skipn i (bucket_row s);
     bucket_sizes := skipn i (bucket_sizes s);
     total := weighted (skipn i (bucket_row s)) (skipn i (bucket_sizes s));
     variance := weighted_sq (skipn i (bucket_row s)) (skipn i (bucket_sizes s));
     width := n1 |}.

(** The [for] loop of [detect_change]. *)
Fixpoint detect_loop (s : ADWIN) (idxs : list nat) : result bool * ADWIN :=
  match idxs with
  | [] => (Ok false, s)
  | i :: rest =>
      let n0 := Py.isum (firstn i (bucket_sizes s)) in
      let n1 := Py.isum (skipn i (bucket_sizes s)) in
      if ((n0 =? 0) || (n1 =? 0))%Z then detect_loop s rest
      else
        match split_exceeds s i n0 n1 with
        | Raise e => (Raise e, s)
        | Ok true => (Ok true, shrink s i n1)
        | Ok false => detect_loop s rest
        end
  end.

(** [ADWIN.detect_change] *)
Definition detect_change (s : ADWIN) : result bool * ADWIN :=
  detect_loop s (seq 1 (length (bucket_sizes s) - 1)).

(** [ADWIN.update] *)
Definition update (s : ADWIN) (value : float) : result bool * ADWIN :=
  detect_change (compress_buckets (insert_element s value)).

(** One [update] call per value. *)
Fixpoint updates (s : ADWIN) (values : list float)
  : list (result bool) * ADWIN :=
  match values with
  | [] => ([], s)
  | v :: rest =>
      let '(r, s1) := update s v in
      let '(rs, s2) := updates s1 rest in
      (r :: rs, s2)
  end.

(** ** AnomalyDetector *)

Record AnomalyDetector : Type := mkAnomalyDetector {
  adwin : ADWIN;
  window : list float;       (* the deque, oldest value first *)
  maxlen : nat;              (* the deque's maxlen, [window_size] *)
  z_threshold : float
}.

(** [AnomalyDetector.__init__] *)
Definition AnomalyDetector_init (window_size : nat) (z : float)
  : AnomalyDetector :=
  {| adwin := ADWIN_init default_delta; window := [];
     maxlen := window_size; z_threshold := z |}.

(** [deque.append] on a deque bounded by [n]. *)
Definition deque_append (n : nat) (w : list float) (x : float) : list float :=
  skipn (length (w ++ [x]) - n) (w ++ [x]).

(** Lines 124-129.  The generator of the squared deviations is consumed by
    [sum], so the first square that overflows raises.  The second division
    by [len(self.window)] follows a successful first one, and [std_dev] is
    1e-6 or the root of a number above 1e-6, never zero. *)
Definition z_test (w : list float) (value z : float) : result bool :=
  mean <-- truediv_int (sum w) (Z.of_nat (length w)) ;;
  squares <-- mapM (fun x => pow2 (x - mean)) w ;;
  let var := sum squares / of_int (Z.of_nat (length w)) in
  let std_dev := if gt var 1e-6 then PrimFloat.sqrt var else 1e-6 in
  let z_score := PrimFloat.abs ((value - mean) / std_dev) in
  Ok (gt z_score z).

(** [AnomalyDetector.detect_anomaly] *)
Definition detect_anomaly (d : AnomalyDetector) (value : float)
  : result (bool * bool) * AnomalyDetector :=
  let w := deque_append (maxlen d) (window d) value in
  let '(r, a) := update (adwin d) value in
  let d1 := {| adwin := a; window := w; maxlen := maxlen d;
               z_threshold := z_threshold d |} in
  (change_detected <-- r ;;
   if (length w <? maxlen d)%nat then Ok (false, change_detected)
   else
     is_anomaly <-- z_test w value (z_threshold d) ;;
     Ok (is_anomaly, change_detected),
   d1).

(** One [detect_anomaly] call per value. *)
Fixpoint detections (d : AnomalyDetector) (values : list float)
  : list (result (bool * bool)) * AnomalyDetector :=
  match values with
  | [] => ([], d)
  | v :: rest =>
      let '(r, d1) := detect_anomaly d v in
      let '(rs, d2) := detections d1 rest in
      (r :: rs, d2)
  end.

End ADWIN.


(** ** [float(text)]

    Python's conversion of a string, from its documentation: surrounding
    whitespace is dropped; then an optional sign and either [inf],
    [infinity] or [nan] in any case, or a decimal numeral - digits with
    single underscores between them, an optional fraction, an optional
    exponent - which is rounded to the nearest binary64 number.  Anything
    else raises ValueError, here [None].  Text is a string of one-byte
    characters: the decimal digits and spaces of other scripts, which
    [float] accepts as well, are not covered. *)

Definition is_space (c : ascii) : bool :=
  let n := nat_of_ascii c in
  ((9 <=? n) && (n <=? 13) || (n =? 32))%nat.

Fixpoint lstrip (s : string) : string :=
  match s with
  | String c tl => if is_space c then lstrip tl else s
  | EmptyString => EmptyString
  end.

Fixpoint rstrip (s : string) : string :=
  match s with
  | String c tl =>
      match rstrip tl with
      | EmptyString => if is_space c then EmptyString else String c EmptyString
      | kept => String c kept
      end
  | EmptyString => EmptyString
  end.

Definition lower (c : ascii) : ascii :=
  let n := nat_of_ascii c in
  if ((65 <=? n) && (n <=? 90))%nat then ascii_of_nat (n + 32) else c.

Fixpoint lower_string (s : string) : string :=
  match s with
  | String c tl => String (lower c) (lower_string tl)
  | EmptyString => EmptyString
  end.

(** The rest of a [digitpart], [(["_"] digit)*], after its first digit: the
    digits read so far as a number, their count, and the text left. *)
Fixpoint digits_rest (s : string) (acc count : Z) : Z * Z * string :=
  match s with
  | String c tl =>
      match digit_of c with
      | Some d => digits_rest tl (10 * acc + d)%Z (count + 1)%Z
      | None =>
          if Ascii.eqb c "_" then
            match tl with
            | String c2 tl2 =>
                match digit_of c2 with
                | Some d2 => digits_rest tl2 (10 * acc + d2)%Z (count + 1)%Z
                | None => (acc, count, s)
                end
            | EmptyString => (acc, count, s)
            end
          else (acc, count, s)
      end
  | EmptyString => (acc, count, s)
  end.

(** [digitpart ::= digit (["_"] digit)*], continuing the number [acc]. *)
Definition digitpart (s : string) (acc : Z) : option (Z * Z * string) :=
  match s with
  | String c tl =>
      match digit_of c with
      | Some d => Some (digits_rest tl (10 * acc + d)%Z 1%Z)
      | None => None
      end
  | EmptyString => None
  end.

(** An optional sign: is it a minus, and the text after it. *)
Definition sign_of (s : string) : bool * string :=
  match s with
  | String "-" tl => (true, tl)
  | String "+" tl => (false, tl)
  | _ => (false, s)
  end.

(** [exponent ::= ("e" | "E") [sign] digitpart], or nothing. *)
Definition exponent_of (s : string) : option Z :=
  match s with
  | EmptyString => Some 0%Z
  | String c tl =>
      if Ascii.eqb (lower c) "e" then
        let '(neg, digits) := sign_of tl in
        match digitpart digits 0%Z with
        | Some (e, _, EmptyString) => Some (if neg then (- e)%Z else e)
        | _ => None
        end
      else None
  end.

(** [floatnumber]: the digits as one integer [m] and the power of ten [e]
    with value [m * 10^e]. *)
Definition floatnumber (s : string) : option (Z * Z) :=
  let '(m1, n1, rest1) :=
    match digitpart s 0%Z with
    | Some r => r
    | None => (0%Z, 0%Z, s)
    end in
  let '(m, n2, rest2) :=
    match rest1 with
    | String "." tl =>
        match digitpart tl m1 with
        | Some r => r
        | None => (m1, 0%Z, tl)
        end
    | _ => (m1, 0%Z, rest1)
    end in
  if (n1 + n2 =? 0)%Z then None
  else
    match exponent_of rest2 with
    | Some e => Some (m, (e - n2)%Z)
    | None => None
    end.

(** The binary64 number nearest to [m * 10^e], ties to even, for [0 < m].
    For [e < 0] the quotient is taken with more than 55 bits and one more
    bit that records a remainder. *)
Definition nearest_float (m e : Z) : spec_float :=
  if (0 <=? e)%Z then binary_normalize prec emax (m * 10 ^ e) 0 false
  else
    let den := (10 ^ (- e))%Z in
    let s := (Z.log2 den + 57)%Z in
    let num := (m * 2 ^ s)%Z in
    let q := (num / den)%Z in
    let sticky := if (num mod den =? 0)%Z then 0%Z else 1%Z in
    binary_normalize prec emax (2 * q + sticky) (- s - 1) false.

Definition float_of_str (text : string) : option float :=
  let '(neg, body) := sign_of (rstrip (lstrip text)) in
  let word := lower_string body in
  if ((word =? "inf") || (word =? "infinity"))%string then
    Some (if neg then PrimFloat.neg_infinity else PrimFloat.infinity)
  else if (word =? "nan")%string then Some PrimFloat.nan
  else
    match floatnumber body with
    | None => None
    | Some (m, e) =>
        if (m =? 0)%Z then Some (if neg then PrimFloat.neg_zero else PrimFloat.zero)
        else
          let x := SF2Prim (nearest_float m e) in
          Some (if neg then - x else x)
    end.

(** [math.log] on the one argument that [ADWIN()] passes to it: with the
    default [delta] every call is [math.log(4 / 0.002)], that is
    [math.log(2000.0)], which returns 7.600902459542082.  Runs of the default
    detector below are computed with it. *)
Definition log_2000 (x : float) : float := 0x1.e6752f96f46dep+2.

(** ** The detection server *)

Inductive message : Type :=
| Text (s : string)
| Fmt (prefix : string) (value : float).

Inductive event : Type :=
| Log (m : message)          (* print *)
| Send (m : message)         (* client_socket.send *)
| CloseClient                (* client_socket.close() *)
| CloseServer.               (* server_socket.close() *)

Inductive step : Type :=
| Break
| Continue (d : AnomalyDetector)
| Uncaught (e : exn).

Inductive status : Type :=
| LoopLeft
| Receiving (d : AnomalyDetector)
| Died (e : exn).

(** The bytes of one [recv(1024)], as [decode('utf-8')] sees them: the text
    they encode, or bytes that are not UTF-8. *)
Inductive payload : Type :=
| Utf8 (data : string)
| NotUtf8.

Section Server.

Variable log : float -> float.

(** Python's [float(text)]; [None] stands for [ValueError]. *)
Variable float_of : string -> option float.

(** Lines 161-166. *)
Definition response (is_anomaly concept_drift : bool) (data_point : float)
  : message :=
  if is_anomaly then Fmt "Anomaly detected: " data_point
  else if concept_drift then Fmt "Concept drift detected: " data_point
  else Fmt "Data received: " data_point.

(** The [except ValueError] handler, lines 169-171. *)
Definition invalid_data (data : string) : list event :=
  [Log (Text ("Invalid data received: " ++ data)); Send (Text "Invalid data")].

(** The loop body, lines 148-171.  The [decode] of line 148 stands before
    the [try]: its UnicodeDecodeError is not caught, nor is any exception of
    [detect_anomaly] other than ValueError. *)
Definition serve_one (d : AnomalyDetector) (received : payload)
  : list event * step :=
  match received with
  | NotUtf8 => ([], Uncaught UnicodeDecodeError)
  | Utf8 data =>
      if ((data =? "") || (data =? "exit"))%string then
        ([Log (Text "Client has disconnected.")], Break)
      else
        match float_of data with
        | None => (invalid_data data, Continue d)
        | Some data_point =>
            let '(r, d1) := detect_anomaly log d data_point in
            match r with
            | Ok (is_anomaly, concept_drift) =>
                ([Log (Fmt "Received data: " data_point);
                  Send (response is_anomaly concept_drift data_point)],
                 Continue d1)
            | Raise ValueError =>
                (Log (Fmt "Received data: " data_point) :: invalid_data data,
                 Continue d1)
            | Raise e => ([Log (Fmt "Received data: " data_point)], Uncaught e)
            end
        end
  end.

(** The [while True] loop over the payloads received so far. *)
Fixpoint serve (d : AnomalyDetector) (received : list payload)
  : list event * status :=
  match received with
  | [] => ([], Receiving d)
  | p :: rest =>
      let '(out, st) := serve_one d p in
      match st with
      | Break => (out, LoopLeft)
      | Continue d1 => let '(out1, fin) := serve d1 rest in (out ++ out1, fin)
      | Uncaught e => (out, Died e)
      end
  end.

(** [start_server], from the accepted connection on; the two [close()] calls
    of lines 173-174 are reached through [break] only. *)
Definition start_server (received : list payload) : list event * status :=
  let '(out, fin) := serve (AnomalyDetector_init 50 3) received in
  match fin with
  | LoopLeft => (out ++ [CloseClient; CloseServer], LoopLeft)
  | _ => (out, fin)
  end.

End Server.

(** ** Vocabulary *)

(** The messages sent to the client, in the order of the [send] calls. *)
Fixpoint replies (out : list event) : list message :=
  match out with
  | [] => []
  | Send m :: rest => m :: replies rest
  | _ :: rest => replies rest
  end.

(** A payload that ends the session through [break]. *)
Definition ends_session (p : payload) : Prop :=
  exists data, p = Utf8 data /\ terminator data.

(** A payload that decodes, does not end the session and is not a number. *)
Definition malformed (float_of : string -> option float) (p : payload) : Prop :=
  exists data, p = Utf8 data /\ ~ terminator data /\ float_of data = None.

(** The payloads received before the first one that ends the session. *)
Fixpoint until_break (received : list payload) : list payload :=
  match received with
  | [] => []
  | Utf8 data :: rest =>
      if ((data =? "") || (data =? "exit"))%string then []
      else Utf8 data :: until_break rest
  | NotUtf8 :: rest => NotUtf8 :: until_break rest
  end.

(** The values of the payloads that [float_of] accepts, in order. *)
Fixpoint parsed (float_of : string -> option float) (received : list payload)
  : list float :=
  match received with
  | [] => []
  | Utf8 data :: rest =>
      match float_of data with
      | Some v => v :: parsed float_of rest
      | None => parsed float_of rest
      end
  | NotUtf8 :: rest => parsed float_of rest
  end.

(** The statistics of a window: its mean, its population variance and the
    floored standard deviation, in binary64. *)
Definition mean_of (w : list float) : float :=
  sum w / of_int (Z.of_nat (length w)).

Definition pvariance_of (w : list float) : float :=
  sum (map (fun x => (x - mean_of w) * (x - mean_of w)) w)
  / of_int (Z.of_nat (length w)).



End B64.

(** * Proofs *)

(** ** Sums and slices *)

Lemma fold_left_Rplus_acc (l : list R) (a : R) :
  fold_left Rplus l a = a + fold_left Rplus l 0.
Proof.
  revert a; induction l as [|x l IH]; intro a; simpl.
  - lra.
  - rewrite (IH (a + x)), (IH (0 + x)). lra.
Qed.

Lemma sum_nil : Py.sum [] = 0.
Proof. reflexivity. Qed.

Lemma sum_cons (x : R) (l : list R) : Py.sum (x :: l) = x + Py.sum l.
Proof.
  unfold Py.sum; simpl. rewrite fold_left_Rplus_acc. lra.
Qed.


Lemma fold_left_Zadd_acc (l : list Z) (a : Z) :
  fold_left Z.add l a = (a + fold_left Z.add l 0)%Z.
Proof.
  revert a; induction l as [|x l IH]; intro a; simpl.
  - lia.
  - rewrite (IH (a + x)%Z), (IH x). lia.
Qed.

Lemma isum_cons (x : Z) (l : list Z) : Py.isum (x :: l) = (x + Py.isum l)%Z.
Proof.
  unfold Py.isum; simpl. rewrite fold_left_Zadd_acc. lia.
Qed.

Lemma isum_app (l1 l2 : list Z) : Py.isum (l1 ++ l2) = (Py.isum l1 + Py.isum l2)%Z.
Proof.
  induction l1 as [|x l1 IH]; simpl.
  - reflexivity.
  - rewrite !isum_cons, IH. lia.
Qed.

Lemma isum_pos (l : list Z) :
  Forall (fun z => (0 < z)%Z) l -> l <> [] -> (0 < Py.isum l)%Z.
Proof.
  induction 1 as [|x l Hx Hl IH]; intro Hne; [congruence|].
  rewrite isum_cons. destruct l as [|y l].
  - unfold Py.isum; simpl. lia.
  - assert (0 < Py.isum (y :: l))%Z by (apply IH; discriminate). lia.
Qed.

Lemma isum_repeat (s : Z) (n : nat) : Py.isum (repeat s n) = (s * Z.of_nat n)%Z.
Proof.
  induction n as [|n IH].
  - simpl. unfold Py.isum; simpl. lia.
  - cbn [repeat]. rewrite isum_cons, IH. lia.
Qed.

Lemma weighted_nil_l (sizes : list Z) : weighted [] sizes = 0.
Proof. reflexivity. Qed.

Lemma weighted_cons (x : R) (row : list R) (z : Z) (sizes : list Z) :
  weighted (x :: row) (z :: sizes) = x * IZR z + weighted row sizes.
Proof. unfold weighted; simpl. rewrite sum_cons. reflexivity. Qed.

Lemma weighted_app (r1 r2 : list R) (z1 z2 : list Z) :
  length r1 = length z1 ->
  weighted (r1 ++ r2) (z1 ++ z2) = weighted r1 z1 + weighted r2 z2.
Proof.
  revert z1; induction r1 as [|x r1 IH]; intros [|z z1] Hlen; try discriminate.
  - simpl. rewrite weighted_nil_l. lra.
  - simpl. rewrite !weighted_cons, IH by (simpl in Hlen; congruence). lra.
Qed.

Lemma weighted_repeat (row : list R) (s : Z) :
  weighted row (repeat s (length row)) = Py.sum row * IZR s.
Proof.
  induction row as [|x row IH].
  - simpl. rewrite weighted_nil_l, sum_nil. lra.
  - cbn [length repeat]. rewrite weighted_cons, sum_cons, IH. lra.
Qed.

(** ** The compression scan *)

Lemma run_length_le (s : Z) (sizes : list Z) :
  (run_length s sizes <= length sizes)%nat.
Proof.
  induction sizes as [|x tl IH]; simpl; [lia|].
  destruct (s =? x)%Z; lia.
Qed.

Lemma run_length_repeat (s : Z) (sizes : list Z) :
  firstn (run_length s sizes) sizes = repeat s (run_length s sizes).
Proof.
  induction sizes as [|x tl IH]; simpl; [reflexivity|].
  destruct (s =? x)%Z eqn:E; [|reflexivity].
  apply Z.eqb_eq in E; subst x. simpl. rewrite IH. reflexivity.
Qed.

(** The inner loop stops at the end of the run that starts at [k]. *)
Lemma run_end_run_length (sizes : list Z) (si : Z) (fuel k : nat) :
  (length sizes - k <= fuel)%nat ->
  run_end sizes si k fuel = (k + run_length si (skipn k sizes))%nat.
Proof.
  revert k; induction fuel as [|fuel IH]; intros k Hf; simpl.
  - rewrite skipn_all2 by lia. simpl. lia.
  - destruct (nth_error sizes k) as [sk|] eqn:Hk.
    + apply nth_error_split in Hk as (l1 & l2 & -> & <-).
      replace (skipn (length l1) (l1 ++ sk :: l2)) with (sk :: l2)
        by (rewrite skipn_app, skipn_all, Nat.sub_diag; reflexivity).
      simpl. destruct (si =? sk)%Z; [|lia].
      rewrite IH by (rewrite length_app in *; simpl in *; lia).
      replace (skipn (S (length l1)) (l1 ++ sk :: l2)) with l2; [lia|].
      rewrite skipn_app, skipn_all2 by lia.
      replace (S (length l1) - length l1)%nat with 1%nat by lia. reflexivity.
    + apply nth_error_None in Hk. rewrite skipn_all2 by lia. simpl. lia.
Qed.

Lemma set_item_split {A : Type} (l1 : list A) (x v : A) (l2 : list A) :
  Py.set_item (length l1) v (l1 ++ x :: l2) = l1 ++ v :: l2.
Proof.
  induction l1 as [|y l1 IH]; simpl; [reflexivity|].
  rewrite IH. reflexivity.
Qed.

(** Writing the merged bucket at [i] and deleting [i+1 .. k-1]. *)
Lemma merge_in_place {A : Type} (i k : nat) (v : A) (xs : list A) :
  (i < k)%nat -> (i < length xs)%nat ->
  Py.del_slice (i + 1) k (Py.set_item i v xs) = firstn i xs ++ v :: skipn k xs.
Proof.
  intros Hik Hi.
  destruct (nth_error xs i) as [x|] eqn:Hx;
    [|apply nth_error_None in Hx; lia].
  apply nth_error_split in Hx as (l1 & l2 & -> & <-).
  rewrite set_item_split. unfold Py.del_slice.
  replace (Nat.max (length l1 + 1) k) with k by lia.
  rewrite !firstn_app, !skipn_app.
  rewrite (firstn_all2 (n := length l1 + 1) l1) by lia.
  rewrite (firstn_all2 (n := length l1) l1) by lia.
  rewrite (skipn_all2 (n := k) l1) by lia.
  replace (length l1 + 1 - length l1)%nat with 1%nat by lia.
  rewrite Nat.sub_diag. simpl.
  destruct (k - length l1)%nat as [|m] eqn:Hm; [lia|]. simpl.
  rewrite ?app_nil_r, <- ?app_assoc. reflexivity.
Qed.

Lemma skipn_nth_error {A : Type} (i : nat) (xs : list A) (x : A) :
  nth_error xs i = Some x -> exists tl, skipn i xs = x :: tl.
Proof.
  intro Hx. apply nth_error_split in Hx as (l1 & l2 & -> & <-).
  exists l2. rewrite skipn_app, skipn_all, Nat.sub_diag. reflexivity.
Qed.

Lemma firstn_plus {A : Type} (i n : nat) (xs : list A) :
  firstn (i + n) xs = firstn i xs ++ firstn n (skipn i xs).
Proof.
  revert xs; induction i as [|i IH]; intros [|x xs]; simpl;
    try reflexivity.
  - rewrite firstn_nil. reflexivity.
  - rewrite IH. reflexivity.
Qed.

Lemma skipn_plus {A : Type} (i n : nat) (xs : list A) :
  skipn (i + n) xs = skipn n (skipn i xs).
Proof.
  revert xs; induction i as [|i IH]; intros [|x xs]; simpl;
    try reflexivity.
  - rewrite skipn_nil. reflexivity.
  - apply IH.
Qed.

(** [compress_loop] at index [i] is [compress_from] on the buckets from [i]
    onward, with the buckets before [i] left as they are. *)
Lemma compress_loop_from (fuel i : nat) (row : list R) (sizes : list Z) :
  length row = length sizes ->
  compress_loop fuel i row sizes =
  (firstn i row ++ fst (compress_from fuel (skipn i row) (skipn i sizes)),
   firstn i sizes ++ snd (compress_from fuel (skipn i row) (skipn i sizes))).
Proof.
  revert i row sizes; induction fuel as [|fuel IH]; intros i row sizes Hlen.
  - simpl. rewrite !firstn_skipn. reflexivity.
  - cbn [compress_loop].
    destruct (nth_error sizes i) as [si|] eqn:Hi.
    + assert (Hilt : (i < length sizes)%nat)
        by (apply nth_error_Some; congruence).
      destruct (skipn_nth_error _ _ _ Hi) as (tl & Htl).
      rewrite run_end_run_length by lia.
      rewrite Htl. cbn [compress_from run_length].
      rewrite Z.eqb_refl.
      set (n := S (run_length si tl)).
      replace (i + n =? i + 1)%nat with (n =? 1)%nat
        by (destruct (Nat.eqb_spec n 1), (Nat.eqb_spec (i + n) (i + 1)); lia).
      destruct (Nat.eqb_spec n 1) as [Hn|Hn].
      * rewrite Hn, IH by assumption.
        replace (i + 1 + 1)%nat with (i + 2)%nat by lia.
        rewrite !firstn_plus, !skipn_plus, Htl.
        destruct (compress_from fuel (skipn 2 (skipn i row)) (skipn 2 (si :: tl)))
          as [r z].
        simpl fst; simpl snd. rewrite <- !app_assoc. reflexivity.
      * assert (Hn2 : (n <= length (si :: tl))%nat)
          by (subst n; simpl; pose proof (run_length_le si tl); lia).
        assert (Hk : (i + n <= length sizes)%nat).
        { rewrite <- (firstn_skipn i sizes), length_app, Htl.
          rewrite length_firstn. lia. }
        rewrite !merge_in_place by lia.
        rewrite IH.
        2:{ rewrite !length_app, !length_firstn. simpl.
            rewrite !length_skipn. lia. }
        replace (i + n - i)%nat with n by lia.
        unfold Py.slice. replace (i + n - i)%nat with n by lia.
        assert (Hf : forall (A : Type) (v : A) (xs : list A),
                   (i < length xs)%nat ->
                   firstn (i + 1) (firstn i xs ++ v :: skipn (i + n) xs)
                   = firstn i xs ++ [v] /\
                   skipn (i + 1) (firstn i xs ++ v :: skipn (i + n) xs)
                   = skipn n (skipn i xs)).
        { intros A v xs Hx. rewrite firstn_app, skipn_app.
          rewrite length_firstn.
          replace (Nat.min i (length xs)) with i by lia.
          replace (i + 1 - i)%nat with 1%nat by lia.
          rewrite (firstn_all2 (n := i + 1)) by (rewrite length_firstn; lia).
          rewrite (skipn_all2 (n := i + 1)) by (rewrite length_firstn; lia).
          simpl. rewrite skipn_plus. split; reflexivity. }
        destruct (Hf R (Py.sum (firstn n (skipn i row)) / INR n) row
                    ltac:(lia)) as [-> ->].
        destruct (Hf Z (si * Z.of_nat n)%Z sizes ltac:(lia)) as [-> ->].
        rewrite Htl.
        destruct (compress_from fuel (skipn n (skipn i row)) (skipn n (si :: tl)))
          as [r z].
        simpl fst; simpl snd. rewrite <- !app_assoc. reflexivity.
    + apply nth_error_None in Hi.
      rewrite (skipn_all2 sizes) by lia.
      rewrite (skipn_all2 row) by lia.
      rewrite (firstn_all2 sizes) by lia.
      rewrite (firstn_all2 row) by lia.
      cbn [compress_from]. simpl. rewrite !app_nil_r. reflexivity.
Qed.

Lemma run_length_zero (s : Z) (sizes : list Z) :
  run_length s sizes = O ->
  sizes = [] \/ exists t tl, sizes = t :: tl /\ s <> t.
Proof.
  destruct sizes as [|t tl]; simpl; [now left|].
  destruct (Z.eqb_spec s t); [discriminate|].
  intros _. right. now exists t, tl.
Qed.

(** With fuel for every bucket, [compress_from] performs one pass of [scan]. *)
Lemma compress_from_scan (fuel : nat) (row : list R) (sizes : list Z) :
  length row = length sizes ->
  (length sizes <= fuel)%nat ->
  scan row sizes (fst (compress_from fuel row sizes))
                 (snd (compress_from fuel row sizes)).
Proof.
  revert row sizes; induction fuel as [|fuel IH]; intros row sizes Hlen Hf.
  - destruct sizes; [|simpl in Hf; lia]. destruct row; [|discriminate].
    simpl. constructor.
  - destruct sizes as [|s tl].
    { destruct row; [|discriminate]. simpl. constructor. }
    destruct row as [|x row]; [discriminate|].
    cbn [compress_from].
    destruct (Nat.eqb_spec (S (run_length s tl)) 1) as [Hn|Hn].
    + assert (H0 : run_length s tl = O) by lia.
      apply run_length_zero in H0 as [->|(t & tl' & -> & Hst)].
      * destruct row; [|discriminate]. simpl.
        destruct fuel; simpl; constructor.
      * destruct row as [|y row]; [discriminate|].
        cbn [skipn firstn].
        specialize (IH row tl' ltac:(simpl in Hlen; lia) ltac:(simpl in Hf; lia)).
        destruct (compress_from fuel row tl') as [r z]. simpl.
        now constructor.
    + set (n := S (run_length s tl)) in *.
      pose proof (run_length_le s tl) as Hle.
      assert (Hsz : s :: tl = repeat s n ++ skipn n (s :: tl)).
      { subst n. cbn [repeat skipn]. rewrite <- run_length_repeat.
        cbn [app]. now rewrite firstn_skipn. }
      assert (Hrow : x :: row = firstn n (x :: row) ++ skipn n (x :: row))
        by now rewrite firstn_skipn.
      assert (Hrl : length (firstn n (x :: row)) = n).
      { rewrite length_firstn. simpl in *. lia. }
      specialize (IH (skipn n (x :: row)) (skipn n (s :: tl))).
      destruct (compress_from fuel (skipn n (x :: row)) (skipn n (s :: tl)))
        as [r z] eqn:E.
      cbn [fst snd] in *.
      assert (Hscan : scan (skipn n (x :: row)) (skipn n (s :: tl)) r z).
      { apply IH; rewrite ?length_skipn; simpl in *; lia. }
      pose proof (scan_merge (firstn n (x :: row)) s _ _ _ _
                    ltac:(lia) Hscan) as Hm.
      rewrite Hrl, <- Hrow, <- Hsz in Hm. exact Hm.
Qed.

Lemma compress_from_sizes (fuel : nat) (row : list R) (sizes : list Z) :
  snd (compress_from fuel row sizes) = sizes_from fuel sizes.
Proof.
  revert row sizes; induction fuel as [|fuel IH]; intros row sizes;
    [reflexivity|].
  destruct sizes as [|s tl]; [reflexivity|].
  cbn [compress_from sizes_from].
  destruct (S (run_length s tl) =? 1)%nat.
  - rewrite <- (IH (skipn 2 row)).
    destruct (compress_from fuel (skipn 2 row) (skipn 2 (s :: tl))); reflexivity.
  - rewrite <- (IH (skipn (S (run_length s tl)) row)).
    destruct (compress_from fuel _ _); reflexivity.
Qed.

(** More fuel than buckets changes nothing: [length sizes] iterations
    complete the scan. *)
Lemma compress_from_fuel (f1 f2 : nat) (row : list R) (sizes : list Z) :
  (length sizes <= f1)%nat -> (length sizes <= f2)%nat ->
  compress_from f1 row sizes = compress_from f2 row sizes.
Proof.
  revert f2 row sizes; induction f1 as [|f1 IH]; intros f2 row sizes H1 H2.
  - destruct sizes; [|simpl in H1; lia]. destruct f2; reflexivity.
  - destruct sizes as [|s tl]; [destruct f2; reflexivity|].
    destruct f2 as [|f2]; [simpl in H2; lia|].
    cbn [compress_from].
    pose proof (run_length_le s tl).
    destruct (S (run_length s tl) =? 1)%nat.
    + rewrite (IH f2); [reflexivity| |];
        rewrite length_skipn; simpl in *; lia.
    + rewrite (IH f2); [reflexivity| |];
        rewrite length_skipn; simpl in *; lia.
Qed.

Lemma compress_loop_fuel (fuel : nat) (row : list R) (sizes : list Z) :
  length row = length sizes ->
  (length sizes <= fuel)%nat ->
  compress_loop fuel 0 row sizes = compress_loop (length sizes) 0 row sizes.
Proof.
  intros Hlen Hf. rewrite !compress_loop_from by assumption.
  simpl. rewrite (compress_from_fuel fuel (length sizes)) by lia.
  reflexivity.
Qed.

(** What [compress_buckets] leaves in the two bucket lists. *)
Lemma compress_buckets_lists (s : ADWIN) :
  length (bucket_row s) = length (bucket_sizes s) ->
  bucket_row (compress_buckets s)
  = fst (compress_from (length (bucket_sizes s)) (bucket_row s) (bucket_sizes s)) /\
  bucket_sizes (compress_buckets s)
  = snd (compress_from (length (bucket_sizes s)) (bucket_row s) (bucket_sizes s)).
Proof.
  intro Hlen. unfold compress_buckets.
  rewrite compress_loop_from by assumption. simpl. split; reflexivity.
Qed.

Lemma compress_buckets_scan (s : ADWIN) :
  length (bucket_row s) = length (bucket_sizes s) ->
  scan (bucket_row s) (bucket_sizes s)
       (bucket_row (compress_buckets s)) (bucket_sizes (compress_buckets s)).
Proof.
  intro Hlen. destruct (compress_buckets_lists s Hlen) as [-> ->].
  apply compress_from_scan; [assumption|lia].
Qed.

Lemma compress_buckets_sizes (s : ADWIN) :
  length (bucket_row s) = length (bucket_sizes s) ->
  bucket_sizes (compress_buckets s) = compress_sizes (bucket_sizes s).
Proof.
  intro Hlen. destruct (compress_buckets_lists s Hlen) as [_ ->].
  apply compress_from_sizes.
Qed.

Lemma compress_buckets_fields (s : ADWIN) :
  delta (compress_buckets s) = delta s /\
  total (compress_buckets s) = total s /\
  variance (compress_buckets s) = variance s /\
  width (compress_buckets s) = width s.
Proof.
  unfold compress_buckets.
  destruct (compress_loop _ _ _ _). simpl. repeat split.
Qed.

(** ** What one pass of the scan preserves *)

Lemma scan_length (row : list R) (sizes : list Z) (row' : list R) (sizes' : list Z) :
  scan row sizes row' sizes' ->
  length row = length sizes /\ length row' = length sizes'.
Proof.
  induction 1 as [| | ? ? ? ? ? ? ? ? ? ? [IH1 IH2] | ? ? ? ? ? ? ? ? [IH1 IH2]];
    simpl; try (split; reflexivity).
  - split; congruence.
  - rewrite !length_app, repeat_length. split; congruence.
Qed.

Lemma scan_positive (row : list R) (sizes : list Z) (row' : list R) (sizes' : list Z) :
  scan row sizes row' sizes' ->
  Forall (fun z => (0 < z)%Z) sizes -> Forall (fun z => (0 < z)%Z) sizes'.
Proof.
  induction 1 as [| | ? ? ? ? ? ? ? ? ? ? IH | run s ? ? ? ? Hrun ? IH];
    intro Hpos; try assumption.
  - inversion Hpos as [|? ? Hs Hpos1]; subst.
    inversion Hpos1 as [|? ? Ht Hpos2]; subst.
    repeat constructor; auto.
  - apply Forall_app in Hpos as [Hrep Hrest].
    constructor; [|auto].
    destruct run as [|x run]; [simpl in Hrun; lia|].
    simpl in Hrep. inversion Hrep; subst. lia.
Qed.

Lemma scan_isum (row : list R) (sizes : list Z) (row' : list R) (sizes' : list Z) :
  scan row sizes row' sizes' -> Py.isum sizes' = Py.isum sizes.
Proof.
  induction 1 as [| | ? ? ? ? ? ? ? ? ? ? IH | run s ? ? ? ? Hrun ? IH];
    try reflexivity.
  - rewrite !isum_cons, IH. reflexivity.
  - rewrite isum_cons, isum_app, isum_repeat, IH. reflexivity.
Qed.

Lemma scan_weighted (row : list R) (sizes : list Z) (row' : list R) (sizes' : list Z) :
  scan row sizes row' sizes' -> weighted row' sizes' = weighted row sizes.
Proof.
  induction 1 as [| | ? ? ? ? ? ? ? ? ? ? IH | run s ? ? ? ? Hrun Hscan IH];
    try reflexivity.
  - rewrite !weighted_cons, IH. reflexivity.
  - rewrite weighted_cons, weighted_app by (now rewrite repeat_length).
    rewrite weighted_repeat, IH, mult_IZR, <- INR_IZR_INZ.
    assert (INR (length run) <> 0) by (apply not_0_INR; lia).
    field. assumption.
Qed.

Lemma sum_constant (c : R) (l : list R) :
  Forall (eq c) l -> Py.sum l = c * INR (length l).
Proof.
  induction 1 as [|x l Hx Hl IH].
  - simpl. rewrite sum_nil. lra.
  - subst x. rewrite sum_cons, IH.
    change (length (c :: l)) with (S (length l)). rewrite S_INR. lra.
Qed.

Lemma scan_constant (c : R) (row : list R) (sizes : list Z)
      (row' : list R) (sizes' : list Z) :
  scan row sizes row' sizes' -> Forall (eq c) row -> Forall (eq c) row'.
Proof.
  induction 1 as [| | ? ? ? ? ? ? ? ? ? ? IH | run s ? ? ? ? Hrun ? IH];
    intro Hc; try assumption.
  - inversion Hc as [|? ? Hx Hc1]; subst.
    inversion Hc1 as [|? ? Hy Hc2]; subst.
    repeat constructor; auto.
  - apply Forall_app in Hc as [Hr Hrest].
    constructor; [|auto].
    rewrite (sum_constant c) by assumption.
    assert (INR (length run) <> 0) by (apply not_0_INR; lia).
    field. assumption.
Qed.

(** ** The split test on a well-formed state *)

Lemma gt_true (a b : R) : Py.gt a b = true <-> a > b.
Proof.
  unfold Py.gt. destruct (Rgt_dec a b); split; intro; try assumption;
    try reflexivity; try discriminate; contradiction.
Qed.

Lemma gt_false (a b : R) : Py.gt a b = false <-> ~ a > b.
Proof.
  unfold Py.gt. destruct (Rgt_dec a b); split; intro; try assumption;
    try reflexivity; try discriminate; contradiction.
Qed.

Lemma truediv_ok (x y : R) : y <> 0 -> Py.truediv x y = Ok (x / y).
Proof.
  intro Hy. unfold Py.truediv. destruct (Req_EM_T y 0); [contradiction|reflexivity].
Qed.

Lemma math_log_ok (x : R) : 0 < x -> Py.math_log x = Ok (ln x).
Proof.
  intro Hx. unfold Py.math_log. destruct (Rlt_dec 0 x); [reflexivity|contradiction].
Qed.

Lemma math_sqrt_ok (x : R) : 0 <= x -> Py.math_sqrt x = Ok (sqrt x).
Proof.
  intro Hx. unfold Py.math_sqrt. destruct (Rle_dec 0 x); [reflexivity|contradiction].
Qed.

Lemma ln_nonneg (x : R) : 1 <= x -> 0 <= ln x.
Proof.
  intros [Hlt|<-].
  - left. rewrite <- ln_1. apply ln_increasing; lra.
  - rewrite ln_1. lra.
Qed.

Lemma log_term_nonneg (d : R) : 0 < d <= 4 -> 0 < 4 / d /\ 0 <= ln (4 / d).
Proof.
  intros [Hd0 Hd4].
  assert (H1 : 1 <= 4 / d).
  { apply Rmult_le_reg_r with d; [assumption|].
    unfold Rdiv. rewrite Rmult_assoc, Rinv_l by lra. lra. }
  split; [lra|]. apply ln_nonneg, H1.
Qed.

(** The threshold in closed form: [2 * m / n0 / n1] is [2 / (n0 + n1)]. *)
Lemma eps_arg (n0 n1 l : R) :
  0 < n0 -> 0 < n1 ->
  2 * (1 / (1 / n0 + 1 / n1)) * l / n0 / n1 = 2 * l / (n0 + n1).
Proof. intros H0 H1. field. repeat split; lra. Qed.

Lemma eps_cut_ok (d : R) (n0 n1 : Z) :
  0 < d <= 4 -> (0 < n0)%Z -> (0 < n1)%Z ->
  eps_cut d n0 n1 =
  Ok (sqrt (2 * (1 / (1 / IZR n0 + 1 / IZR n1)) * ln (4 / d) / IZR n0 / IZR n1)).
Proof.
  intros Hd H0 H1.
  apply IZR_lt in H0, H1.
  destruct (log_term_nonneg d Hd) as [Hq Hl].
  assert (Hs : 0 < 1 / IZR n0 + 1 / IZR n1).
  { apply Rplus_lt_0_compat; apply Rdiv_lt_0_compat; lra. }
  unfold eps_cut.
  rewrite truediv_ok by lra. cbn [bind].
  rewrite truediv_ok by lra. cbn [bind].
  rewrite math_log_ok by assumption. cbn [bind].
  apply math_sqrt_ok.
  rewrite eps_arg by assumption.
  apply Rmult_le_pos; [lra|]. left. apply Rinv_0_lt_compat. lra.
Qed.

Lemma split_sizes_positive (s : ADWIN) (i : nat) :
  well_formed s -> (1 <= i < length (bucket_sizes s))%nat ->
  (0 < n0_at s i)%Z /\ (0 < n1_at s i)%Z.
Proof.
  intros (_ & Hpos & _) Hi. unfold n0_at, n1_at.
  rewrite <- (firstn_skipn i (bucket_sizes s)) in Hpos.
  apply Forall_app in Hpos as [Hfst Hskp].
  split; apply isum_pos; try assumption.
  - intro E. apply (f_equal (@length Z)) in E.
    rewrite length_firstn in E. simpl in E. lia.
  - intro E. apply (f_equal (@length Z)) in E.
    rewrite length_skipn in E. simpl in E. lia.
Qed.

Lemma split_exceeds_ok (s : ADWIN) (i : nat) :
  well_formed s -> (1 <= i < length (bucket_sizes s))%nat ->
  split_exceeds s i (n0_at s i) (n1_at s i)
  = Ok (Py.gt (Rabs (u0_at s i - u1_at s i)) (eps_at s i)).
Proof.
  intros Hwf Hi.
  destruct (split_sizes_positive s i Hwf Hi) as [H0 H1].
  unfold split_exceeds.
  rewrite eps_cut_ok by (try apply Hwf; assumption).
  reflexivity.
Qed.

(** One iteration of the [for] loop at a split point of a well-formed
    state. *)
Lemma detect_loop_step (s : ADWIN) (i : nat) (rest : list nat) :
  well_formed s -> (1 <= i < length (bucket_sizes s))%nat ->
  detect_loop s (i :: rest) =
  if Py.gt (Rabs (u0_at s i - u1_at s i)) (eps_at s i)
  then (Ok true, shrink s i (n1_at s i))
  else detect_loop s rest.
Proof.
  intros Hwf Hi.
  destruct (split_sizes_positive s i Hwf Hi) as [H0 H1].
  cbn [detect_loop]. fold (n0_at s i) (n1_at s i).
  destruct (Z.eqb_spec (n0_at s i) 0); [lia|].
  destruct (Z.eqb_spec (n1_at s i) 0); [lia|].
  cbn [orb]. rewrite split_exceeds_ok by assumption.
  reflexivity.
Qed.

Lemma detect_loop_quiet (s : ADWIN) (idxs : list nat) :
  well_formed s ->
  Forall (fun i => (1 <= i < length (bucket_sizes s))%nat) idxs ->
  (forall i, In i idxs -> ~ triggers s i) ->
  detect_loop s idxs = (Ok false, s).
Proof.
  intros Hwf Hidx. induction Hidx as [|i rest Hi Hrest IH]; intro Hno.
  - reflexivity.
  - rewrite detect_loop_step by assumption.
    assert (Hg : Py.gt (Rabs (u0_at s i - u1_at s i)) (eps_at s i) = false).
    { apply gt_false. apply (Hno i). now left. }
    rewrite Hg. apply IH. intros j Hj. apply Hno. now right.
Qed.

Lemma detect_loop_hit (s : ADWIN) (before : list nat) (i : nat) (after : list nat) :
  well_formed s ->
  Forall (fun i => (1 <= i < length (bucket_sizes s))%nat) (before ++ [i]) ->
  (forall j, In j before -> ~ triggers s j) ->
  triggers s i ->
  detect_loop s (before ++ i :: after) = (Ok true, shrink s i (n1_at s i)).
Proof.
  intros Hwf Hidx Hno Hi.
  induction before as [|j before IH]; cbn [app] in *.
  - inversion Hidx; subst.
    rewrite detect_loop_step by assumption.
    assert (Hg : Py.gt (Rabs (u0_at s i - u1_at s i)) (eps_at s i) = true)
      by (apply gt_true, Hi).
    now rewrite Hg.
  - inversion Hidx; subst.
    rewrite detect_loop_step by assumption.
    assert (Hg : Py.gt (Rabs (u0_at s j - u1_at s j)) (eps_at s j) = false).
    { apply gt_false. apply Hno. now left. }
    rewrite Hg. apply IH; [assumption|]. intros k Hk. apply Hno. now right.
Qed.

Lemma split_points (n : nat) :
  Forall (fun i => (1 <= i < n)%nat) (seq 1 (n - 1)).
Proof.
  apply Forall_forall. intros i Hi. apply in_seq in Hi. lia.
Qed.

(** No split point triggers: "no change", state untouched. *)
Lemma detect_change_quiet (s : ADWIN) :
  well_formed s ->
  (forall i, (1 <= i < length (bucket_sizes s))%nat -> ~ triggers s i) ->
  detect_change s = (Ok false, s).
Proof.
  intros Hwf Hno. unfold detect_change.
  apply detect_loop_quiet; [assumption|apply split_points|].
  intros i Hi. apply Hno. apply in_seq in Hi. lia.
Qed.

(** The first split point that triggers decides the call. *)
Lemma detect_change_hit (s : ADWIN) (i : nat) :
  well_formed s -> first_trigger s i ->
  detect_change s = (Ok true, shrink s i (n1_at s i)).
Proof.
  intros Hwf (Hi & Htrig & Hfirst). unfold detect_change.
  set (n := length (bucket_sizes s)) in *.
  assert (Hseq : seq 1 (n - 1) = seq 1 (i - 1) ++ i :: seq (S i) (n - 1 - i)).
  { replace (n - 1)%nat with ((i - 1) + S (n - 1 - i))%nat at 1 by lia.
    rewrite seq_app. cbn [seq]. replace (1 + (i - 1))%nat with i by lia.
    reflexivity. }
  rewrite Hseq. apply detect_loop_hit; try assumption.
  - apply Forall_app. split.
    + apply Forall_forall. intros j Hj. apply in_seq in Hj. lia.
    + constructor; [lia|constructor].
  - intros j Hj. apply Hfirst. apply in_seq in Hj. lia.
Qed.

(** Whatever the state, the scan only changes it when it reports a change. *)
Lemma detect_loop_unchanged (s : ADWIN) (idxs : list nat) :
  fst (detect_loop s idxs) <> Ok true -> snd (detect_loop s idxs) = s.
Proof.
  induction idxs as [|i rest IH]; [reflexivity|].
  cbn [detect_loop].
  destruct ((Py.isum (firstn i (bucket_sizes s)) =? 0)%Z
            || (Py.isum (skipn i (bucket_sizes s)) =? 0)%Z); [exact IH|].
  destruct (split_exceeds s i _ _) as [[|]|e]; simpl; auto.
  congruence.
Qed.

(** On a well-formed state the scan raises nothing. *)
Lemma detect_loop_total (s : ADWIN) (idxs : list nat) :
  well_formed s ->
  Forall (fun i => (1 <= i < length (bucket_sizes s))%nat) idxs ->
  exists b, fst (detect_loop s idxs) = Ok b.
Proof.
  intros Hwf Hidx. induction Hidx as [|i rest Hi Hrest IH].
  - now exists false.
  - rewrite detect_loop_step by assumption.
    destruct (Py.gt _ _); [now exists true|exact IH].
Qed.

(** ** The class invariant along [update] *)

Lemma well_formed_init (d : R) : 0 < d <= 4 -> well_formed (ADWIN_init d).
Proof. intro Hd. repeat split; simpl; try apply Hd. constructor. Qed.

Lemma well_formed_insert (s : ADWIN) (v : R) :
  well_formed s -> well_formed (insert_element s v).
Proof.
  intros (Hlen & Hpos & Hd). repeat split; simpl; try apply Hd.
  - rewrite !length_app, Hlen. reflexivity.
  - apply Forall_app. split; [assumption|]. repeat constructor.
Qed.

Lemma well_formed_compress (s : ADWIN) :
  well_formed s -> well_formed (compress_buckets s).
Proof.
  intros (Hlen & Hpos & Hd).
  pose proof (compress_buckets_scan s Hlen) as Hscan.
  destruct (compress_buckets_fields s) as (Hdelta & _).
  repeat split.
  - apply (scan_length _ _ _ _ Hscan).
  - apply (scan_positive _ _ _ _ Hscan Hpos).
  - rewrite Hdelta. apply Hd.
  - rewrite Hdelta. apply Hd.
Qed.

Lemma well_formed_shrink (s : ADWIN) (i : nat) (n1 : Z) :
  well_formed s -> well_formed (shrink s i n1).
Proof.
  intros (Hlen & Hpos & Hd). repeat split; simpl; try apply Hd.
  - rewrite !length_skipn, Hlen. reflexivity.
  - rewrite <- (firstn_skipn i (bucket_sizes s)) in Hpos.
    apply Forall_app in Hpos. apply Hpos.
Qed.

(** The state a scan leaves is the one it started from or a [shrink] of it. *)
Lemma detect_loop_state (s : ADWIN) (idxs : list nat) :
  (fst (detect_loop s idxs) <> Ok true /\ snd (detect_loop s idxs) = s) \/
  (exists i, detect_loop s idxs
             = (Ok true, shrink s i (Py.isum (skipn i (bucket_sizes s))))).
Proof.
  induction idxs as [|i rest IH]; cbn [detect_loop].
  - left. split; [discriminate|reflexivity].
  - destruct ((Py.isum (firstn i (bucket_sizes s)) =? 0)%Z
              || (Py.isum (skipn i (bucket_sizes s)) =? 0)%Z); [exact IH|].
    destruct (split_exceeds s i _ _) as [[|]|e]; simpl.
    + right. now exists i.
    + exact IH.
    + left. split; [discriminate|reflexivity].
Qed.

Lemma well_formed_detect (s : ADWIN) :
  well_formed s -> well_formed (snd (detect_change s)).
Proof.
  intro Hwf. unfold detect_change.
  destruct (detect_loop_state s (seq 1 (length (bucket_sizes s) - 1)))
    as [[_ ->]|(i & ->)]; [assumption|].
  apply well_formed_shrink, Hwf.
Qed.

Lemma well_formed_update (s : ADWIN) (v : R) :
  well_formed s -> well_formed (snd (update s v)).
Proof.
  intro Hwf. apply well_formed_detect, well_formed_compress,
    well_formed_insert, Hwf.
Qed.

(** On a well-formed state [update] returns a boolean: nothing is raised. *)
Lemma update_total (s : ADWIN) (v : R) :
  well_formed s -> exists b, fst (update s v) = Ok b.
Proof.
  intro Hwf. unfold update, detect_change.
  apply detect_loop_total; [|apply split_points].
  apply well_formed_compress, well_formed_insert, Hwf.
Qed.

Lemma well_formed_updates (s : ADWIN) (values : list R) :
  well_formed s -> well_formed (snd (updates s values)).
Proof.
  revert s; induction values as [|v values IH]; intros s Hwf; simpl.
  - assumption.
  - pose proof (well_formed_update s v Hwf) as H1.
    destruct (update s v) as [r s1]. simpl in H1.
    specialize (IH s1 H1). destruct (updates s1 values). exact IH.
Qed.

Lemma default_delta_ok : 0 < default_delta <= 4.
Proof. unfold default_delta. lra. Qed.

Lemma reachable_well_formed (s : ADWIN) : reachable s -> well_formed s.
Proof.
  intros (values & ->). apply well_formed_updates, well_formed_init,
    default_delta_ok.
Qed.

(** ** C1: the split-point scan *)

(** The sums of [detect_change], [sum(x * y for x, y in zip(...))] and
    [sum(x * x * y ...)], are the size-weighted sums. *)
Lemma weighted_size_weighted (row : list R) (sizes : list Z) :
  weighted row sizes = size_weighted row sizes.
Proof.
  revert sizes. induction row as [|x row IH]; intros [|z sizes];
    try reflexivity.
  rewrite weighted_cons, IH. reflexivity.
Qed.

Lemma weighted_sq_size_weighted (row : list R) (sizes : list Z) :
  weighted_sq row sizes = size_weighted_squares row sizes.
Proof.
  revert sizes. induction row as [|x row IH]; intros [|z sizes];
    try reflexivity.
  unfold weighted_sq in *. simpl. rewrite sum_cons, IH. reflexivity.
Qed.

Lemma isum_fold_right (l : list Z) : Py.isum l = fold_right Z.add 0%Z l.
Proof.
  induction l as [|x l IH]; [reflexivity|].
  rewrite isum_cons, IH. reflexivity.
Qed.

(** C1. On every well-formed ADWIN state, [detect_change] scans the split
    points [1 .. bucket count - 1] in increasing order.  If [i] is the first
    split point with [|u0 - u1| > eps], where
    [eps = sqrt(2 * m * ln(4/delta) / n0 / n1)] and [m = 1 / (1/n0 + 1/n1)],
    the call returns True and leaves exactly the buckets from [i] onward, with
    [width] the sum of the retained sizes, [total] the sum of the retained
    values weighted by their sizes and [variance] the sum of their squares
    weighted by their sizes; whether a later split point would trigger plays
    no part.  If no split point triggers, the call returns False and the
    state is unchanged. *)
Theorem detect_change_first_hit (s : ADWIN) :
  well_formed s ->
  (forall i, first_trigger s i ->
     exists s',
       detect_change s = (Ok true, s') /\
       bucket_row s' = skipn i (bucket_row s) /\
       bucket_sizes s' = skipn i (bucket_sizes s) /\
       width s' = fold_right Z.add 0%Z (skipn i (bucket_sizes s)) /\
       total s'
       = size_weighted (skipn i (bucket_row s)) (skipn i (bucket_sizes s)) /\
       variance s'
       = size_weighted_squares (skipn i (bucket_row s))
                               (skipn i (bucket_sizes s)) /\
       delta s' = delta s) /\
  ((forall i, (1 <= i < length (bucket_sizes s))%nat -> ~ triggers s i) ->
   detect_change s = (Ok false, s)).
Proof.
  intro Hwf. split.
  - intros i Hi. exists (shrink s i (n1_at s i)).
    split; [apply detect_change_hit; assumption|].
    cbn [shrink bucket_row bucket_sizes width total variance delta].
    repeat split.
    + unfold n1_at. apply isum_fold_right.
    + apply weighted_size_weighted.
    + apply weighted_sq_size_weighted.
  - apply detect_change_quiet, Hwf.
Qed.

(** ** Numeric bounds for the default threshold *)

Lemma exp_1_lower : 9 / 4 < exp 1.
Proof.
  replace 1 with (/ 2 + / 2) by lra. rewrite exp_plus.
  assert (H : 1 + / 2 < exp (/ 2)) by (apply exp_ineq1; lra).
  nra.
Qed.

Lemma ln_2000_upper : ln 2000 < 10.
Proof.
  rewrite <- (ln_exp 10). apply ln_increasing; [lra|].
  pose proof exp_1_lower as H1.
  assert (H2 : exp 2 = exp 1 * exp 1) by (rewrite <- exp_plus; f_equal; lra).
  assert (H4 : exp 4 = exp 2 * exp 2) by (rewrite <- exp_plus; f_equal; lra).
  assert (H8 : exp 8 = exp 4 * exp 4) by (rewrite <- exp_plus; f_equal; lra).
  assert (H10 : exp 10 = exp 8 * exp 2) by (rewrite <- exp_plus; f_equal; lra).
  assert (81 / 16 < exp 2) by nra.
  assert (6561 / 256 < exp 4) by nra.
  assert (43046721 / 65536 < exp 8) by nra.
  nra.
Qed.

Lemma ln_2000_lower : 6 <= ln 2000.
Proof.
  rewrite <- (ln_exp 6).
  pose proof exp_le_3 as H1. pose proof (exp_pos 1) as P1.
  assert (H2 : exp 2 = exp 1 * exp 1) by (rewrite <- exp_plus; f_equal; lra).
  assert (H3 : exp 3 = exp 2 * exp 1) by (rewrite <- exp_plus; f_equal; lra).
  assert (H6 : exp 6 = exp 3 * exp 3) by (rewrite <- exp_plus; f_equal; lra).
  assert (exp 2 <= 9) by nra.
  assert (0 < exp 2) by apply exp_pos.
  assert (exp 3 <= 27) by nra.
  assert (0 < exp 3) by apply exp_pos.
  assert (exp 6 < 2000) by nra.
  left. apply ln_increasing; [apply exp_pos|assumption].
Qed.

(** [math.log(4 / 0.002)] lies in [6, 10). *)
Lemma default_log_bounds : 6 <= ln (4 / default_delta) < 10.
Proof.
  replace (4 / default_delta) with 2000 by (unfold default_delta; lra).
  split; [apply ln_2000_lower|apply ln_2000_upper].
Qed.

(** The threshold of a split of a well-formed state, in closed form. *)
Lemma eps_at_closed (s : ADWIN) (i : nat) :
  well_formed s -> (1 <= i < length (bucket_sizes s))%nat ->
  eps_at s i
  = sqrt (2 * ln (4 / delta s) / (IZR (n0_at s i) + IZR (n1_at s i))).
Proof.
  intros Hwf Hi.
  destruct (split_sizes_positive s i Hwf Hi) as [H0 H1].
  apply IZR_lt in H0, H1.
  unfold eps_at. cbv zeta. rewrite eps_arg by assumption. reflexivity.
Qed.

(** Under the default [delta]: a squared gap of at least [20 / (n0 + n1)]
    triggers, one of at most [12 / (n0 + n1)] does not. *)
Lemma triggers_far (s : ADWIN) (i : nat) :
  well_formed s -> (1 <= i < length (bucket_sizes s))%nat ->
  delta s = default_delta ->
  20 / (IZR (n0_at s i) + IZR (n1_at s i)) <= Rsqr (u0_at s i - u1_at s i) ->
  triggers s i.
Proof.
  intros Hwf Hi Hd Hgap.
  destruct (split_sizes_positive s i Hwf Hi) as [H0 H1].
  apply IZR_lt in H0, H1.
  unfold triggers. rewrite eps_at_closed, Hd by assumption.
  destruct default_log_bounds as [Hlo Hhi].
  set (n := IZR (n0_at s i) + IZR (n1_at s i)) in *.
  assert (Hnpos : 0 < n) by (subst n; lra).
  clearbody n. set (L := ln (4 / default_delta)) in *. clearbody L.
  assert (Hn : 0 < / n) by (apply Rinv_0_lt_compat; lra).
  rewrite <- sqrt_Rsqr_abs. apply Rlt_gt, sqrt_lt_1_alt.
  unfold Rdiv in *. split; [nra|]. nra.
Qed.

Lemma triggers_near (s : ADWIN) (i : nat) :
  well_formed s -> (1 <= i < length (bucket_sizes s))%nat ->
  delta s = default_delta ->
  Rsqr (u0_at s i - u1_at s i) <= 12 / (IZR (n0_at s i) + IZR (n1_at s i)) ->
  ~ triggers s i.
Proof.
  intros Hwf Hi Hd Hgap.
  destruct (split_sizes_positive s i Hwf Hi) as [H0 H1].
  apply IZR_lt in H0, H1.
  unfold triggers. rewrite eps_at_closed, Hd by assumption.
  destruct default_log_bounds as [Hlo Hhi].
  set (n := IZR (n0_at s i) + IZR (n1_at s i)) in *.
  assert (Hnpos : 0 < n) by (subst n; lra).
  clearbody n. set (L := ln (4 / default_delta)) in *. clearbody L.
  assert (Hn : 0 < / n) by (apply Rinv_0_lt_compat; lra).
  rewrite <- sqrt_Rsqr_abs. apply Rle_not_gt, sqrt_le_1_alt.
  unfold Rdiv in *. nra.
Qed.

(** ** C2: the aggregate fields and the bucket list *)

Lemma isum_snoc (l : list Z) (z : Z) : Py.isum (l ++ [z]) = (Py.isum l + z)%Z.
Proof. rewrite isum_app, isum_cons. change (Py.isum []) with 0%Z. lia. Qed.

Lemma weighted_snoc (row : list R) (sizes : list Z) (v : R) (z : Z) :
  length row = length sizes ->
  weighted (row ++ [v]) (sizes ++ [z]) = weighted row sizes + v * IZR z.
Proof.
  intro Hlen. rewrite weighted_app by assumption.
  rewrite weighted_cons, weighted_nil_l. lra.
Qed.

Lemma tracked_init (d : R) : tracked (ADWIN_init d).
Proof. repeat split. Qed.

Lemma tracked_insert (s : ADWIN) (v : R) :
  tracked s -> tracked (insert_element s v).
Proof.
  intros (Hlen & Hw & Ht). unfold tracked, width_consistent, total_consistent in *.
  simpl. rewrite !length_app, isum_snoc, weighted_snoc by assumption.
  rewrite Hlen, Hw, Ht. repeat split. lra.
Qed.

Lemma tracked_compress (s : ADWIN) :
  tracked s -> tracked (compress_buckets s).
Proof.
  intros (Hlen & Hw & Ht). unfold tracked, width_consistent, total_consistent in *.
  pose proof (compress_buckets_scan s Hlen) as Hscan.
  destruct (compress_buckets_fields s) as (_ & Htot & _ & Hwid).
  rewrite Htot, Hwid, (scan_isum _ _ _ _ Hscan), (scan_weighted _ _ _ _ Hscan).
  repeat split; try assumption. apply (scan_length _ _ _ _ Hscan).
Qed.

Lemma tracked_shrink (s : ADWIN) (i : nat) :
  tracked s -> tracked (shrink s i (Py.isum (skipn i (bucket_sizes s)))).
Proof.
  intros (Hlen & _). repeat split. simpl. rewrite !length_skipn, Hlen. reflexivity.
Qed.

Lemma tracked_detect (s : ADWIN) : tracked s -> tracked (snd (detect_change s)).
Proof.
  intro Ht. unfold detect_change.
  destruct (detect_loop_state s (seq 1 (length (bucket_sizes s) - 1)))
    as [[_ ->]|(i & ->)]; [assumption|].
  apply tracked_shrink, Ht.
Qed.

Lemma tracked_update (s : ADWIN) (v : R) : tracked s -> tracked (snd (update s v)).
Proof.
  intro Ht. apply tracked_detect, tracked_compress, tracked_insert, Ht.
Qed.

Lemma tracked_updates (s : ADWIN) (values : list R) :
  tracked s -> tracked (snd (updates s values)).
Proof.
  revert s; induction values as [|v values IH]; intros s Ht; simpl.
  - assumption.
  - pose proof (tracked_update s v Ht) as H1.
    destruct (update s v) as [r s1]. simpl in H1.
    specialize (IH s1 H1). destruct (updates s1 values). exact IH.
Qed.

(** After a reported change the variance is the one of the retained
    buckets. *)
Lemma variance_after_change (s : ADWIN) :
  fst (detect_change s) = Ok true -> variance_consistent (snd (detect_change s)).
Proof.
  unfold detect_change.
  destruct (detect_loop_state s (seq 1 (length (bucket_sizes s) - 1)))
    as [[Hno _]|(i & ->)]; [contradiction|].
  intros _. reflexivity.
Qed.

(** C2, as the code has it.  For every stream fed to a fresh detector and
    every further value: after the insert, after the compression and after
    the whole [update] (so also after a change-triggered shrink), [width] is
    the sum of the bucket sizes; and when the call reports a change, [total]
    and [variance] are the sums over the retained buckets of the
    representative values, and of their squares, weighted by size, as
    [detect_change] has just recomputed them.  Between two reported changes
    nothing is promised of [total] and [variance]: [compress_buckets] leaves
    both as they were, and the running [total] is the sum of the raw values,
    which the weighted sum of the merged means matches in exact arithmetic
    only ([tracked_update]). *)
Theorem aggregates_tracked (d : R) (values : list R) (v : R) :
  let s := snd (updates (ADWIN_init d) values) in
  width (insert_element s v)
  = fold_right Z.add 0%Z (bucket_sizes (insert_element s v)) /\
  width (compress_buckets (insert_element s v))
  = fold_right Z.add 0%Z (bucket_sizes (compress_buckets (insert_element s v))) /\
  width (snd (update s v))
  = fold_right Z.add 0%Z (bucket_sizes (snd (update s v))) /\
  (fst (update s v) = Ok true ->
   total (snd (update s v))
   = size_weighted (bucket_row (snd (update s v)))
                   (bucket_sizes (snd (update s v))) /\
   variance (snd (update s v))
   = size_weighted_squares (bucket_row (snd (update s v)))
                           (bucket_sizes (snd (update s v)))).
Proof.
  intro s.
  assert (Hs : tracked s) by (apply tracked_updates, tracked_init).
  pose proof (tracked_insert s v Hs) as (_ & Hi & _).
  pose proof (tracked_compress _ (tracked_insert s v Hs)) as (_ & Hc & _).
  pose proof (tracked_update s v Hs) as (_ & Hu & Ht).
  unfold width_consistent, total_consistent in *.
  rewrite <- !isum_fold_right. repeat split; try assumption.
  - rewrite <- weighted_size_weighted. exact Ht.
  - rewrite <- weighted_sq_size_weighted.
    apply variance_after_change. assumption.
Qed.

(** C2 as stated fails: feed 0 and then 2 to a fresh detector.  The second
    call merges the two unit buckets into one bucket of value 1 and size 2;
    [variance] stays 0*0 + 2*2 = 4 while the bucket list gives 1*1*2 = 2. *)
Lemma variance_not_consistent_after_compress :
  let s := snd (updates (ADWIN_init default_delta) [0]) in
  bucket_sizes (compress_buckets (insert_element s 2)) = [2%Z] /\
  ~ consistent (compress_buckets (insert_element s 2)).
Proof.
  cbn. split; [reflexivity|].
  intros (_ & _ & Hv). unfold variance_consistent, weighted_sq in Hv.
  cbn in Hv. lra.
Qed.

(** ** A constant stream in exact arithmetic *)

Lemma weighted_constant (c : R) (row : list R) (sizes : list Z) :
  Forall (eq c) row -> length row = length sizes ->
  weighted row sizes = c * IZR (Py.isum sizes).
Proof.
  intro Hc. revert sizes. induction Hc as [|x row Hx Hrow IH];
    intros [|z sizes] Hlen; try discriminate.
  - rewrite weighted_nil_l. change (Py.isum []) with 0%Z. lra.
  - subst x. rewrite weighted_cons, isum_cons, plus_IZR, IH
      by (simpl in Hlen; congruence). lra.
Qed.

Lemma Forall_firstn {A : Type} (P : A -> Prop) (n : nat) (l : list A) :
  Forall P l -> Forall P (firstn n l).
Proof.
  intro H. rewrite <- (firstn_skipn n l) in H.
  apply Forall_app in H. apply H.
Qed.

Lemma Forall_skipn {A : Type} (P : A -> Prop) (n : nat) (l : list A) :
  Forall P l -> Forall P (skipn n l).
Proof.
  intro H. rewrite <- (firstn_skipn n l) in H.
  apply Forall_app in H. apply H.
Qed.

(** On a uniform window both sides of every split have mean [c]. *)
Lemma uniform_means (c : R) (s : ADWIN) (i : nat) :
  well_formed s -> uniform c s -> (1 <= i < length (bucket_sizes s))%nat ->
  u0_at s i = c /\ u1_at s i = c.
Proof.
  intros Hwf Hu Hi.
  destruct (split_sizes_positive s i Hwf Hi) as [H0 H1].
  apply IZR_lt in H0, H1. destruct Hwf as (Hlen & _).
  unfold u0_at, u1_at. split.
  - rewrite (weighted_constant c)
      by (try apply Forall_firstn; try rewrite !length_firstn; auto).
    fold (n0_at s i). field. lra.
  - rewrite (weighted_constant c)
      by (try apply Forall_skipn; try rewrite !length_skipn; auto).
    fold (n1_at s i). field. lra.
Qed.

Lemma uniform_quiet (c : R) (s : ADWIN) :
  well_formed s -> uniform c s -> detect_change s = (Ok false, s).
Proof.
  intros Hwf Hu. apply detect_change_quiet; [assumption|].
  intros i Hi. destruct (uniform_means c s i Hwf Hu Hi) as [H0 H1].
  unfold triggers. rewrite H0, H1.
  replace (c - c) with 0 by lra. rewrite Rabs_R0.
  apply Rle_not_gt. unfold eps_at. apply sqrt_pos.
Qed.

(** Feeding [c] to a uniform window of [c]s: no change, and the window stays
    uniform; its sizes are [grow] of the sizes before. *)
Lemma uniform_update (c : R) (s : ADWIN) :
  well_formed s -> uniform c s ->
  update s c = (Ok false, compress_buckets (insert_element s c)) /\
  well_formed (compress_buckets (insert_element s c)) /\
  uniform c (compress_buckets (insert_element s c)) /\
  bucket_sizes (compress_buckets (insert_element s c)) = grow (bucket_sizes s).
Proof.
  intros Hwf Hu.
  pose proof (well_formed_insert s c Hwf) as Hwi.
  pose proof (well_formed_compress _ Hwi) as Hwc.
  assert (Hui : uniform c (insert_element s c)).
  { unfold uniform. simpl. apply Forall_app. split; [assumption|].
    repeat constructor. }
  assert (Huc : uniform c (compress_buckets (insert_element s c))).
  { unfold uniform.
    apply (scan_constant c _ _ _ _
             (compress_buckets_scan _ (proj1 Hwi)) Hui). }
  repeat split; try apply Hwc; try assumption.
  - unfold update. apply (uniform_quiet c); assumption.
  - rewrite compress_buckets_sizes by apply Hwi. reflexivity.
Qed.

Lemma iter_grow_shift (n : nat) (sizes : list Z) :
  Nat.iter n grow (grow sizes) = Nat.iter (S n) grow sizes.
Proof.
  induction n as [|n IH]; [reflexivity|].
  rewrite (Nat.iter_succ (S n)), <- IH, Nat.iter_succ. reflexivity.
Qed.

Lemma uniform_updates (c : R) (n : nat) (s : ADWIN) :
  well_formed s -> uniform c s ->
  fst (updates s (repeat c n)) = repeat (Ok false) n /\
  well_formed (snd (updates s (repeat c n))) /\
  uniform c (snd (updates s (repeat c n))) /\
  bucket_sizes (snd (updates s (repeat c n))) = Nat.iter n grow (bucket_sizes s).
Proof.
  revert s; induction n as [|n IH]; intros s Hwf Hu.
  - simpl. repeat split; try apply Hwf; assumption.
  - cbn [repeat updates].
    destruct (uniform_update c s Hwf Hu) as (Hup & Hwf1 & Hu1 & Hsz).
    rewrite Hup.
    destruct (IH _ Hwf1 Hu1) as (Hres & Hwf2 & Hu2 & Hsz2).
    destruct (updates (compress_buckets (insert_element s c)) (repeat c n))
      as [rs s2].
    cbn [fst snd] in *. rewrite Hres, Hsz2, Hsz, iter_grow_shift.
    repeat split; try apply Hwf2; assumption.
Qed.

Lemma grow_isum (sizes : list Z) : Py.isum (grow sizes) = (Py.isum sizes + 1)%Z.
Proof.
  unfold grow, compress_sizes.
  rewrite <- (compress_from_sizes _ (map (fun _ => 0) (sizes ++ [1%Z]))).
  rewrite (scan_isum _ _ _ _
             (compress_from_scan _ _ _ (length_map _ _) (le_n _))).
  apply isum_snoc.
Qed.

Lemma iter_grow_isum (n : nat) (sizes : list Z) :
  Py.isum (Nat.iter n grow sizes) = (Py.isum sizes + Z.of_nat n)%Z.
Proof.
  induction n as [|n IH].
  - simpl. lia.
  - rewrite Nat.iter_succ, grow_isum, IH. lia.
Qed.

(** In exact arithmetic a constant stream never drifts: every [update] call
    returns False, and afterwards the bucket sizes sum to [n].  The program
    computes in binary64, where this fails ([constant_stream_drifts]). *)
Lemma constant_stream_exact (c : R) (n : nat) :
  fst (updates (ADWIN_init default_delta) (repeat c n)) = repeat (Ok false) n /\
  Py.isum (bucket_sizes (snd (updates (ADWIN_init default_delta) (repeat c n))))
  = Z.of_nat n.
Proof.
  destruct (uniform_updates c n (ADWIN_init default_delta)
              (well_formed_init _ default_delta_ok) (Forall_nil _))
    as (Hres & _ & _ & Hsz).
  split; [assumption|].
  rewrite Hsz, iter_grow_isum. reflexivity.
Qed.

(** ** C9: the bucket sizes of a reachable state *)

(** A property kept by the three mutations is kept along any stream. *)
Lemma updates_invariant (P : ADWIN -> Prop) :
  (forall s v, P s -> P (insert_element s v)) ->
  (forall s, P s -> P (compress_buckets s)) ->
  (forall s i, P s -> P (shrink s i (Py.isum (skipn i (bucket_sizes s))))) ->
  forall values s, P s -> P (snd (updates s values)).
Proof.
  intros Hins Hcomp Hshr.
  assert (Hupd : forall s v, P s -> P (snd (update s v))).
  { intros s v Hs. unfold update, detect_change.
    set (c := compress_buckets (insert_element s v)).
    assert (Hc : P c) by (apply Hcomp, Hins, Hs).
    destruct (detect_loop_state c (seq 1 (length (bucket_sizes c) - 1)))
      as [[_ ->]|(i & ->)]; [assumption|]. apply Hshr, Hc. }
  induction values as [|v values IH]; intros s Hs; simpl.
  - assumption.
  - specialize (Hupd s v Hs). destruct (update s v) as [r s1].
    specialize (IH s1 Hupd). destruct (updates s1 values). exact IH.
Qed.

Lemma updates_app (s : ADWIN) (l1 l2 : list R) :
  snd (updates s (l1 ++ l2)) = snd (updates (snd (updates s l1)) l2).
Proof.
  revert s; induction l1 as [|v l1 IH]; intro s; simpl.
  - reflexivity.
  - destruct (update s v) as [r s1]. specialize (IH s1).
    destruct (updates s1 (l1 ++ l2)) as [rs s2].
    destruct (updates s1 l1) as [rs1 s3]. simpl in *. exact IH.
Qed.

Lemma sized_updates (d : R) (values : list R) :
  let s := snd (updates (ADWIN_init d) values) in
  length (bucket_row s) = length (bucket_sizes s) /\
  Forall (fun z => (0 < z)%Z) (bucket_sizes s) /\
  width_consistent s.
Proof.
  apply (updates_invariant
           (fun s => length (bucket_row s) = length (bucket_sizes s) /\
                     Forall (fun z => (0 < z)%Z) (bucket_sizes s) /\
                     width_consistent s)).
  - intros s v (Hlen & Hpos & Hw). unfold width_consistent in *. simpl.
    rewrite !length_app, isum_snoc, Hlen, Hw. repeat split.
    apply Forall_app. split; [assumption|]. repeat constructor.
  - intros s (Hlen & Hpos & Hw). unfold width_consistent in *.
    pose proof (compress_buckets_scan s Hlen) as Hscan.
    destruct (compress_buckets_fields s) as (_ & _ & _ & Hwid).
    rewrite Hwid, (scan_isum _ _ _ _ Hscan).
    repeat split; try assumption.
    + apply (scan_length _ _ _ _ Hscan).
    + apply (scan_positive _ _ _ _ Hscan Hpos).
  - intros s i (Hlen & Hpos & Hw). repeat split; simpl.
    + rewrite !length_skipn, Hlen. reflexivity.
    + apply Forall_skipn, Hpos.
  - repeat split. constructor.
Qed.

(** C9, as the code has it.  In every state reached by [update] calls on a
    fresh detector every bucket size is at least 1 and the bucket sizes sum
    to the window width. *)
Theorem bucket_sizes_sum_to_width (d : R) (values : list R) :
  let s := snd (updates (ADWIN_init d) values) in
  Forall (fun z => (1 <= z)%Z) (bucket_sizes s) /\
  Py.isum (bucket_sizes s) = width s.
Proof.
  intro s. destruct (sized_updates d values) as (_ & Hpos & Hw).
  fold s in Hpos, Hw. split.
  - eapply Forall_impl; [|exact Hpos]. simpl. intros; lia.
  - symmetry. exact Hw.
Qed.

(** C9 as stated fails: three equal values leave the sizes [2; 1], a larger
    bucket followed by a smaller one; five leave [2; 1; 2], which is ordered
    in neither direction. *)
Lemma bucket_sizes_decrease :
  let s3 := snd (updates (ADWIN_init default_delta) [0; 0; 0]) in
  let s5 := snd (updates (ADWIN_init default_delta) [0; 0; 0; 0; 0]) in
  (reachable s3 /\
   bucket_sizes s3 = [2%Z; 1%Z] /\
   nondecreasing (bucket_sizes s3) = false) /\
  (reachable s5 /\
   bucket_sizes s5 = [2%Z; 1%Z; 2%Z] /\
   nondecreasing (bucket_sizes s5) = false /\
   nondecreasing (rev (bucket_sizes s5)) = false).
Proof.
  cbv zeta.
  assert (Hs : forall n,
             bucket_sizes (snd (updates (ADWIN_init default_delta) (repeat 0 n)))
             = Nat.iter n grow []).
  { intro n.
    apply (uniform_updates 0 n (ADWIN_init default_delta)
             (well_formed_init _ default_delta_ok) (Forall_nil _)). }
  pose proof (Hs 3%nat) as H3. pose proof (Hs 5%nat) as H5.
  change (repeat 0 3) with [0; 0; 0] in H3.
  change (repeat 0 5) with [0; 0; 0; 0; 0] in H5.
  split.
  - split; [now exists [0; 0; 0]|]. rewrite H3. split; reflexivity.
  - split; [now exists [0; 0; 0; 0; 0]|]. rewrite H5. repeat split; reflexivity.
Qed.

(** ** C3: compressing twice *)

Lemma gap_at (s : ADWIN) (i : nat) :
  u0_at s i - u1_at s i = gap (bucket_row s) (bucket_sizes s) i.
Proof. reflexivity. Qed.

(** An [update] under the default [delta] whose compressed window has only
    small gaps reports no change. *)
Lemma update_small_gaps (s : ADWIN) (v : R) (row : list R) (sizes : list Z)
      (row' : list R) :
  shows s row sizes ->
  fst (compress_from (length (sizes ++ [1%Z])) (row ++ [v]) (sizes ++ [1%Z])) = row' ->
  (forall i, (1 <= i < length (grow sizes))%nat ->
     Rsqr (gap row' (grow sizes) i)
     <= 12 / (IZR (Py.isum (firstn i (grow sizes)))
              + IZR (Py.isum (skipn i (grow sizes))))) ->
  fst (update s v) = Ok false /\
  shows (snd (update s v)) row' (grow sizes).
Proof.
  intros (Hwf & Hd & Hrow & Hsz) Hrow' Hgaps.
  set (c := compress_buckets (insert_element s v)).
  pose proof (well_formed_insert s v Hwf) as Hwi.
  assert (Hwc : well_formed c) by apply well_formed_compress, Hwi.
  destruct (compress_buckets_lists _ (proj1 Hwi)) as [Hr Hs].
  fold c in Hr, Hs. simpl in Hr, Hs. rewrite Hrow, Hsz in Hr, Hs.
  rewrite Hrow' in Hr.
  rewrite compress_from_sizes in Hs. fold (compress_sizes (sizes ++ [1%Z])) in Hs.
  fold (grow sizes) in Hs.
  assert (Hdc : delta c = default_delta).
  { unfold c. destruct (compress_buckets_fields (insert_element s v)) as [-> _].
    exact Hd. }
  assert (Hq : detect_change c = (Ok false, c)).
  { apply detect_change_quiet; [assumption|].
    intros i Hi. apply triggers_near; try assumption.
    rewrite gap_at. unfold n0_at, n1_at. rewrite Hr, Hs.
    apply Hgaps. rewrite <- Hs. exact Hi. }
  unfold update. fold c. rewrite Hq. simpl.
  split; [reflexivity|]. repeat split; try assumption; apply Hwc.
Qed.

(** An [update] under the default [delta] whose compressed window has a
    large gap at its first split point drops the first bucket. *)
Lemma update_first_gap (s : ADWIN) (v : R) (row : list R) (sizes : list Z)
      (row' : list R) :
  shows s row sizes ->
  fst (compress_from (length (sizes ++ [1%Z])) (row ++ [v]) (sizes ++ [1%Z])) = row' ->
  (2 <= length (grow sizes))%nat ->
  20 / (IZR (Py.isum (firstn 1 (grow sizes))) + IZR (Py.isum (skipn 1 (grow sizes))))
  <= Rsqr (gap row' (grow sizes) 1) ->
  fst (update s v) = Ok true /\
  shows (snd (update s v)) (skipn 1 row') (skipn 1 (grow sizes)).
Proof.
  intros (Hwf & Hd & Hrow & Hsz) Hrow' Hlen Hgap.
  set (c := compress_buckets (insert_element s v)).
  pose proof (well_formed_insert s v Hwf) as Hwi.
  assert (Hwc : well_formed c) by apply well_formed_compress, Hwi.
  destruct (compress_buckets_lists _ (proj1 Hwi)) as [Hr Hs].
  fold c in Hr, Hs. simpl in Hr, Hs. rewrite Hrow, Hsz in Hr, Hs.
  rewrite Hrow' in Hr.
  rewrite compress_from_sizes in Hs. fold (compress_sizes (sizes ++ [1%Z])) in Hs.
  fold (grow sizes) in Hs.
  assert (Hdc : delta c = default_delta).
  { unfold c. destruct (compress_buckets_fields (insert_element s v)) as [-> _].
    exact Hd. }
  assert (Hq : detect_change c = (Ok true, shrink c 1 (n1_at c 1))).
  { apply detect_change_hit; [assumption|].
    split; [rewrite Hs; lia|]. split; [|intros j Hj; lia].
    apply triggers_far; try assumption; [rewrite Hs; lia|].
    rewrite gap_at. unfold n0_at, n1_at. rewrite Hr, Hs. exact Hgap. }
  unfold update. fold c. rewrite Hq. simpl.
  split; [reflexivity|].
  split; [apply well_formed_shrink, Hwc|].
  split; [exact Hdc|].
  split; simpl; [rewrite Hr|rewrite Hs]; reflexivity.
Qed.

Lemma updates_nil (s : ADWIN) : snd (updates s []) = s.
Proof. reflexivity. Qed.

Lemma updates_cons (s : ADWIN) (v : R) (values : list R) :
  snd (updates s (v :: values)) = snd (updates (snd (update s v)) values).
Proof.
  simpl. destruct (update s v) as [r s1]. simpl.
  destruct (updates s1 values). reflexivity.
Qed.

Lemma updates_delta (s : ADWIN) (values : list R) :
  delta (snd (updates s values)) = delta s.
Proof.
  apply (updates_invariant (fun t => delta t = delta s)); try reflexivity.
  - intros t v Ht. exact Ht.
  - intros t Ht. destruct (compress_buckets_fields t) as [-> _]. exact Ht.
  - intros t i Ht. exact Ht.
Qed.

Lemma Forall_eq_repeat {A : Type} (c : A) (l : list A) :
  Forall (eq c) l -> l = repeat c (length l).
Proof.
  induction 1 as [|x l Hx Hl IH]; [reflexivity|].
  subst x. simpl. rewrite <- IH. reflexivity.
Qed.

Ltac split_point i Hi :=
  cbn in Hi;
  repeat (destruct i as [|i];
          [first [lia | unfold gap, weighted, Rsqr; cbn; lra] | try lia]).

(** The drifting stream, call by call. *)
Lemma drifting_prefix :
  shows (snd (updates (ADWIN_init default_delta) [2; 2; 0; 2; -2])) [0; 0] [1%Z; 2%Z].
Proof.
  assert (H0 : shows (ADWIN_init default_delta) [] []).
  { repeat split; simpl; try (unfold default_delta; lra). constructor. }
  assert (H1 : shows (snd (update (ADWIN_init default_delta) 2)) [2] [1%Z]).
  { apply (update_small_gaps _ 2 [] [] [2] H0); [reflexivity|].
    intros i Hi. split_point i Hi. }
  set (s1 := snd (update (ADWIN_init default_delta) 2)) in *.
  assert (H2 : shows (snd (update s1 2)) [2] [2%Z]).
  { apply (update_small_gaps _ 2 [2] [1%Z] [2] H1); [cbn; f_equal; lra|].
    intros i Hi. split_point i Hi. }
  set (s2 := snd (update s1 2)) in *.
  assert (H3 : shows (snd (update s2 0)) [2; 0] [2%Z; 1%Z]).
  { apply (update_small_gaps _ 0 [2] [2%Z] [2; 0] H2); [reflexivity|].
    intros i Hi. split_point i Hi. }
  set (s3 := snd (update s2 0)) in *.
  assert (H4 : shows (snd (update s3 2)) [2; 0; 2] [2%Z; 1%Z; 1%Z]).
  { apply (update_small_gaps _ 2 [2; 0] [2%Z; 1%Z] [2; 0; 2] H3);
      [reflexivity|].
    intros i Hi. split_point i Hi. }
  set (s4 := snd (update s3 2)) in *.
  assert (H5 : shows (snd (update s4 (-2))) [0; 0] [1%Z; 2%Z]).
  { apply (update_first_gap _ (-2) [2; 0; 2] [2%Z; 1%Z; 1%Z] [2; 0; 0] H4).
    - cbn. repeat f_equal. lra.
    - cbn. lia.
    - unfold gap, weighted, Rsqr. cbn. lra. }
  do 5 rewrite updates_cons. rewrite updates_nil. exact H5.
Qed.

Lemma drifting_middle :
  shows (snd (updates (ADWIN_init default_delta)
                ([2; 2; 0; 2; -2] ++ repeat 0 6)))
        [0; 0; 0; 0; 0; 0] [1%Z; 2%Z; 2%Z; 1%Z; 2%Z; 1%Z].
Proof.
  rewrite updates_app.
  destruct drifting_prefix as (Hwf & Hd & Hrow & Hsz).
  set (s5 := snd (updates (ADWIN_init default_delta) [2; 2; 0; 2; -2])) in *.
  assert (Hu : uniform 0 s5) by (unfold uniform; rewrite Hrow; repeat constructor).
  destruct (uniform_updates 0 6 s5 Hwf Hu) as (_ & Hwf' & Hu' & Hsz').
  rewrite Hsz in Hsz'.
  change (Nat.iter 6 grow [1%Z; 2%Z]) with [1%Z; 2%Z; 2%Z; 1%Z; 2%Z; 1%Z] in Hsz'.
  split; [assumption|]. split; [rewrite updates_delta; exact Hd|].
  split; [|assumption].
  rewrite (Forall_eq_repeat 0 _ Hu'), (proj1 Hwf'), Hsz'. reflexivity.
Qed.

Lemma drifting_end :
  fst (update (snd (updates (ADWIN_init default_delta)
                      ([2; 2; 0; 2; -2] ++ repeat 0 6))) 1000) = Ok true /\
  shows (snd (updates (ADWIN_init default_delta) drifting_stream))
        [0; 0; 0; 0; 0; 1000] [2%Z; 2%Z; 1%Z; 2%Z; 1%Z; 1%Z].
Proof.
  change drifting_stream with (([2; 2; 0; 2; -2] ++ repeat 0 6) ++ [1000]).
  rewrite (updates_app _ _ [1000]), updates_cons, updates_nil.
  apply (update_first_gap _ 1000 _ _ [0; 0; 0; 0; 0; 0; 1000] drifting_middle).
  - reflexivity.
  - cbn. lia.
  - unfold gap, weighted, Rsqr. cbn. lra.
Qed.

(** C3 as stated fails.  After the twelve [update] calls of
    [drifting_stream] (the fifth and the twelfth report a change and drop the
    oldest bucket) the sizes are [2; 2; 1; 2; 1; 1].  One compression gives
    [4; 1; 2; 2]: the scan merges the two leading 2s, steps over the 1, and
    merges the two trailing 1s.  A second compression starts from another
    position and merges the two trailing 2s: [4; 1; 4]. *)
Lemma compress_twice_differs :
  let s := snd (updates (ADWIN_init default_delta) drifting_stream) in
  reachable s /\
  bucket_sizes s = [2; 2; 1; 2; 1; 1]%Z /\
  bucket_sizes (compress_buckets s) = [4; 1; 2; 2]%Z /\
  bucket_sizes (compress_buckets (compress_buckets s)) = [4; 1; 4]%Z.
Proof.
  cbv zeta. destruct drifting_end as (_ & Hwf & _ & _ & Hsz).
  set (s := snd (updates (ADWIN_init default_delta) drifting_stream)) in *.
  pose proof (well_formed_compress s Hwf) as Hwc.
  split; [now exists drifting_stream|]. split; [assumption|].
  assert (H1 : bucket_sizes (compress_buckets s) = [4; 1; 2; 2]%Z).
  { rewrite compress_buckets_sizes by apply Hwf. rewrite Hsz. reflexivity. }
  split; [assumption|].
  rewrite compress_buckets_sizes by apply Hwc. rewrite H1. reflexivity.
Qed.

(** The scan finds nothing to merge in settled sizes. *)
Lemma compress_from_settled (j : nat) (t : list Z) (fuel : nat) (row : list R) :
  t = [] \/ t = [1%Z] \/ t = [2%Z] ->
  length row = length (pairs j ++ t) ->
  compress_from fuel row (pairs j ++ t) = (row, pairs j ++ t).
Proof.
  intro Ht. revert fuel row; induction j as [|j IH]; intros fuel row Hlen.
  - destruct fuel as [|fuel]; [reflexivity|].
    destruct Ht as [->|[->| ->]]; simpl in *.
    + reflexivity.
    + destruct row as [|x [|y row]]; try discriminate.
      destruct fuel; reflexivity.
    + destruct row as [|x [|y row]]; try discriminate.
      destruct fuel; reflexivity.
  - destruct fuel as [|fuel]; [reflexivity|].
    destruct row as [|x [|y row]]; try discriminate.
    cbn [pairs app compress_from run_length]. cbn [Z.eqb Pos.eqb Nat.eqb].
    cbn [skipn firstn]. rewrite IH by (simpl in Hlen; lia).
    reflexivity.
Qed.

Lemma sizes_from_settled (j : nat) (t : list Z) (fuel : nat) :
  (j < fuel)%nat ->
  sizes_from fuel (pairs j ++ [1%Z]) = pairs j ++ [1%Z] /\
  sizes_from fuel (pairs j ++ [1%Z; 1%Z]) = pairs j ++ [2%Z] /\
  sizes_from fuel (pairs j ++ [2%Z; 1%Z]) = pairs j ++ [2%Z; 1%Z].
Proof.
  revert fuel; induction j as [|j IH]; intros fuel Hf.
  - destruct fuel as [|fuel]; [lia|]. cbn.
    repeat split; destruct fuel; reflexivity.
  - destruct fuel as [|fuel]; [lia|].
    destruct (IH fuel ltac:(lia)) as (H1 & H2 & H3).
    cbn [pairs app sizes_from run_length]. cbn [Z.eqb Pos.eqb Nat.eqb].
    cbn [skipn firstn]. rewrite H1, H2, H3. repeat split; reflexivity.
Qed.

Lemma pairs_length (j : nat) : length (pairs j) = (2 * j)%nat.
Proof. induction j as [|j IH]; simpl; lia. Qed.

Lemma pairs_snoc (j : nat) : pairs j ++ [2%Z; 1%Z] = pairs (S j).
Proof. induction j as [|j IH]; [reflexivity|]. simpl. rewrite IH. reflexivity. Qed.

Lemma grow_settled (sizes : list Z) : settled sizes -> settled (grow sizes).
Proof.
  intros [j|j|j]; unfold grow, compress_sizes;
    rewrite ?length_app, ?pairs_length; simpl length.
  - destruct (sizes_from_settled j [] (2 * j + 1)) as (-> & _); [lia|].
    constructor.
  - rewrite <- app_assoc. simpl app.
    destruct (sizes_from_settled j [] (2 * j + 1 + 1)) as (_ & -> & _); [lia|].
    constructor.
  - rewrite <- app_assoc. simpl app.
    destruct (sizes_from_settled j [] (2 * j + 1 + 1)) as (_ & _ & ->); [lia|].
    rewrite pairs_snoc. constructor.
Qed.

Lemma compress_settled (s : ADWIN) :
  length (bucket_row s) = length (bucket_sizes s) ->
  settled (bucket_sizes s) ->
  compress_buckets s = s.
Proof.
  intros Hlen Hs.
  assert (H : compress_from (length (bucket_sizes s)) (bucket_row s) (bucket_sizes s)
              = (bucket_row s, bucket_sizes s)).
  { destruct Hs as [j|j|j].
    - rewrite <- (app_nil_r (pairs j)) at 2 3.
      apply compress_from_settled; [auto|]. rewrite app_nil_r.
      rewrite Hlen. congruence.
    - apply compress_from_settled; [auto|]. rewrite Hlen. congruence.
    - apply compress_from_settled; [auto|]. rewrite Hlen. congruence. }
  unfold compress_buckets. rewrite compress_loop_from by assumption.
  simpl. rewrite H. destruct s; reflexivity.
Qed.

Lemma quiet_update (s : ADWIN) (v : R) :
  length (bucket_row s) = length (bucket_sizes s) ->
  fst (update s v) = Ok false ->
  snd (update s v) = compress_buckets (insert_element s v) /\
  length (bucket_row (snd (update s v))) = length (bucket_sizes (snd (update s v))) /\
  bucket_sizes (snd (update s v)) = grow (bucket_sizes s).
Proof.
  intros Hlen Hq.
  assert (Hi : length (bucket_row (insert_element s v))
               = length (bucket_sizes (insert_element s v)))
    by (simpl; rewrite !length_app, Hlen; reflexivity).
  assert (Hu : snd (update s v) = compress_buckets (insert_element s v)).
  { unfold update, detect_change in *. apply detect_loop_unchanged.
    rewrite Hq. discriminate. }
  rewrite Hu. split; [reflexivity|]. split.
  - apply (scan_length _ _ _ _ (compress_buckets_scan _ Hi)).
  - rewrite compress_buckets_sizes by assumption. reflexivity.
Qed.

Lemma quiet_settled (values : list R) (s : ADWIN) :
  length (bucket_row s) = length (bucket_sizes s) ->
  settled (bucket_sizes s) ->
  Forall (fun r => r = Ok false) (fst (updates s values)) ->
  length (bucket_row (snd (updates s values)))
  = length (bucket_sizes (snd (updates s values))) /\
  settled (bucket_sizes (snd (updates s values))).
Proof.
  revert s; induction values as [|v values IH]; intros s Hlen Hs Hq.
  - simpl. split; assumption.
  - rewrite updates_cons. simpl in Hq.
    destruct (update s v) as [r s1] eqn:Hup.
    destruct (updates s1 values) as [rs s2] eqn:Hups.
    simpl in Hq. inversion Hq as [|? ? Hr Hrs]; subst.
    destruct (quiet_update s v Hlen) as (_ & Hlen1 & Hsz1);
      [rewrite Hup; reflexivity|].
    rewrite Hup in *. simpl in *.
    apply IH; [assumption| |rewrite Hups; assumption].
    rewrite Hsz1. apply grow_settled, Hs.
Qed.

(** C3, as the code has it.  In a state reached by [update] calls none of
    which reported a change, a further [compress_buckets] leaves the state
    as it is, so that compressing twice gives what compressing once gives. *)
Theorem quiet_compress_idempotent (d : R) (values : list R) :
  quiet d values ->
  compress_buckets (compress_buckets (snd (updates (ADWIN_init d) values)))
  = compress_buckets (snd (updates (ADWIN_init d) values)) /\
  compress_buckets (snd (updates (ADWIN_init d) values))
  = snd (updates (ADWIN_init d) values).
Proof.
  intro Hq.
  destruct (quiet_settled values (ADWIN_init d) eq_refl (settled_pairs 0) Hq)
    as [Hlen Hs].
  pose proof (compress_settled _ Hlen Hs) as Hfix.
  rewrite !Hfix. split; reflexivity.
Qed.

Lemma quiet_constant (c : R) (n : nat) : quiet default_delta (repeat c n).
Proof.
  unfold quiet.
  destruct (uniform_updates c n (ADWIN_init default_delta)
              (well_formed_init _ default_delta_ok) (Forall_nil _))
    as (-> & _).
  apply Forall_forall. intros r Hr. apply repeat_spec in Hr. exact Hr.
Qed.

(** C3 on the stream [5; 5; 5; 5]: it is quiet, and compressing its final
    state once more changes nothing. *)
Lemma quiet_compress_idempotent_witness :
  quiet default_delta [5; 5; 5; 5] /\
  compress_buckets
    (compress_buckets (snd (updates (ADWIN_init default_delta) [5; 5; 5; 5])))
  = compress_buckets (snd (updates (ADWIN_init default_delta) [5; 5; 5; 5])).
Proof.
  split; [exact (quiet_constant 5 4)|].
  exact (proj1 (quiet_compress_idempotent default_delta [5; 5; 5; 5]
                  (quiet_constant 5 4))).
Defined.

(** ** C5: the first [window_size - 1] calls *)

Lemma deque_append_room (n : nat) (w : list R) (x : R) :
  (length w + 1 <= n)%nat -> deque_append n w x = w ++ [x].
Proof.
  intro H. unfold deque_append. rewrite length_app. simpl.
  replace (length w + 1 - n)%nat with O by lia. reflexivity.
Qed.

(** While the window has room to spare, [detect_anomaly] answers False
    together with whatever the drift detector answered (or raised). *)
Lemma detect_anomaly_early (d : AnomalyDetector) (v : R) :
  (length (window d) + 1 < maxlen d)%nat ->
  detect_anomaly d v =
  (result_map (pair false) (fst (update (adwin d) v)),
   {| adwin := snd (update (adwin d) v); window := window d ++ [v];
      maxlen := maxlen d; z_threshold := z_threshold d |}).
Proof.
  intro H. unfold detect_anomaly.
  rewrite deque_append_room by lia.
  destruct (update (adwin d) v) as [r a]. cbn [fst snd].
  f_equal. unfold result_map. destruct r as [cd|e]; cbn [bind]; [|reflexivity].
  rewrite length_app. simpl length.
  destruct (Nat.ltb_spec (length (window d) + 1) (maxlen d)); [reflexivity|lia].
Qed.

Lemma detections_early (values : list R) (d : AnomalyDetector) (j : nat) :
  (length (window d) + j + 1 < maxlen d)%nat ->
  nth_error (fst (detections d values)) j
  = option_map (result_map (pair false))
      (nth_error (fst (updates (adwin d) values)) j).
Proof.
  revert d j; induction values as [|v values IH]; intros d j Hj.
  - destruct j; reflexivity.
  - cbn [detections updates].
    rewrite detect_anomaly_early by lia.
    destruct (update (adwin d) v) as [r a] eqn:Hup. cbn [fst snd].
    set (d1 := {| adwin := a; window := window d ++ [v];
                  maxlen := maxlen d; z_threshold := z_threshold d |}).
    specialize (IH d1).
    destruct (detections d1 values) as [rs d2].
    destruct (updates a values) as [us a2] eqn:Hups.
    cbn [fst snd] in *. destruct j as [|j]; [reflexivity|].
    cbn [nth_error]. change a with (adwin d1) in Hups.
    rewrite (IH j), Hups; [reflexivity|].
    subst d1. cbn [window maxlen]. rewrite length_app. simpl. lia.
Qed.

(** C5. On a fresh [AnomalyDetector] of capacity [window_size], whatever
    values are fed, call number [j + 1] with [j + 1 < window_size] (one of the
    first [window_size - 1] calls) returns [is_anomaly = False] paired with
    the drift detector's own result for that call. *)
Theorem early_calls_not_anomalous
        (window_size : nat) (z : R) (values : list R) (j : nat) :
  (j + 1 < window_size)%nat ->
  nth_error (fst (detections (AnomalyDetector_init window_size z) values)) j
  = option_map (result_map (pair false))
      (nth_error (fst (updates (ADWIN_init default_delta) values)) j).
Proof.
  intro Hj. apply (detections_early values (AnomalyDetector_init window_size z)).
  simpl. lia.
Qed.

(** C5 with capacity 3: the second call, on the value one million, answers
    (False, False). *)
Lemma early_calls_not_anomalous_witness :
  (1 + 1 < 3)%nat /\
  nth_error (fst (detections (AnomalyDetector_init 3 3) [0; 1000000])) 1
  = Some (Ok (false, false)).
Proof.
  split; [lia|].
  rewrite (early_calls_not_anomalous 3 3 [0; 1000000] 1) by lia.
  reflexivity.
Defined.

(** ** The Z-score test in exact arithmetic *)




(** ** C7: the server loop *)

Lemma terminator_eqb (data : string) :
  ((data =? "") || (data =? "exit"))%string = true <-> terminator data.
Proof.
  unfold terminator. rewrite orb_true_iff, !String.eqb_eq. reflexivity.
Qed.

Lemma not_terminator_eqb (data : string) :
  ~ terminator data -> ((data =? "") || (data =? "exit"))%string = false.
Proof.
  intro H. destruct ((data =? "") || (data =? "exit"))%string eqn:E;
    [|reflexivity].
  apply terminator_eqb in E. contradiction.
Qed.

(** C7. For a payload that parses to [v] and on which the detector returns
    [(is_anomaly, concept_drift)], the server sends exactly one reply, chosen
    by priority: "Anomaly detected: v" whenever [is_anomaly] holds (also when
    [concept_drift] holds as well), "Concept drift detected: v" exactly when
    [is_anomaly] is False and [concept_drift] is True, and
    "Data received: v" exactly when both are False. *)
Theorem reply_priority (float_of : string -> option R)
        (d d1 : AnomalyDetector) (data : string) (v : R)
        (is_anomaly concept_drift : bool) :
  ~ terminator data ->
  float_of data = Some v ->
  detect_anomaly d v = (Ok (is_anomaly, concept_drift), d1) ->
  exists m,
    serve_one float_of d data
    = ([Log (Fmt "Received data: " v); Send m], Continue d1) /\
    (m = Fmt "Anomaly detected: " v <-> is_anomaly = true) /\
    (m = Fmt "Concept drift detected: " v <->
     is_anomaly = false /\ concept_drift = true) /\
    (m = Fmt "Data received: " v <->
     is_anomaly = false /\ concept_drift = false).
Proof.
  intros Hterm Hparse Hrun.
  exists (response is_anomaly concept_drift v). split.
  - unfold serve_one. rewrite not_terminator_eqb, Hparse, Hrun by assumption.
    reflexivity.
  - destruct is_anomaly, concept_drift; cbn [response];
      repeat split; try reflexivity; try discriminate;
      try (intros [? ?]; discriminate); intro; discriminate.
Qed.

(** C7 on the first payload of a session, "42.5": the reply is
    "Data received: 42.5". *)
Lemma reply_priority_witness :
  exists d1,
    serve_one decimal_float (AnomalyDetector_init 50 3) "42.5"
    = ([Log (Fmt "Received data: " (425 / 10));
        Send (Fmt "Data received: " (425 / 10))], Continue d1).
Proof.
  destruct (reply_priority decimal_float (AnomalyDetector_init 50 3)
              (snd (detect_anomaly (AnomalyDetector_init 50 3) (425 / 10)))
              "42.5" (425 / 10) false false)
    as (m & Hrun & _ & _ & Hm).
  - intros [H|H]; discriminate.
  - reflexivity.
  - reflexivity.
  - eexists. rewrite Hrun. rewrite (proj2 Hm (conj eq_refl eq_refl)).
    reflexivity.
Defined.

(** ** C1 on a state that [update] reaches *)

(** The bucket list behind [late_hit_state]. *)
Lemma late_hit_lists :
  well_formed late_hit_state /\ delta late_hit_state = default_delta /\
  bucket_row late_hit_state = [0; 15 / 10; -2] /\
  bucket_sizes late_hit_state = [2%Z; 1%Z; 2%Z].
Proof.
  assert (H0 : shows (ADWIN_init default_delta) [] []).
  { repeat split; simpl; try (unfold default_delta; lra). constructor. }
  assert (H1 : shows (snd (update (ADWIN_init default_delta) 0)) [0] [1%Z]).
  { apply (update_small_gaps _ 0 [] [] [0] H0); [reflexivity|].
    intros i Hi. split_point i Hi. }
  set (s1 := snd (update (ADWIN_init default_delta) 0)) in *.
  assert (H2 : shows (snd (update s1 0)) [0] [2%Z]).
  { apply (update_small_gaps _ 0 [0] [1%Z] [0] H1); [cbn; f_equal; lra|].
    intros i Hi. split_point i Hi. }
  set (s2 := snd (update s1 0)) in *.
  assert (H3 : shows (snd (update s2 (15 / 10))) [0; 15 / 10] [2%Z; 1%Z]).
  { apply (update_small_gaps _ (15 / 10) [0] [2%Z] [0; 15 / 10] H2);
      [reflexivity|].
    intros i Hi. split_point i Hi. }
  set (s3 := snd (update s2 (15 / 10))) in *.
  assert (H4 : shows (snd (update s3 (-1))) [0; 15 / 10; -1] [2%Z; 1%Z; 1%Z]).
  { apply (update_small_gaps _ (-1) [0; 15 / 10] [2%Z; 1%Z] [0; 15 / 10; -1] H3);
      [reflexivity|].
    intros i Hi. split_point i Hi. }
  unfold late_hit_state. do 4 rewrite updates_cons. rewrite updates_nil.
  fold s1 s2 s3. destruct H4 as (Hwf & Hd & Hrow & Hsz).
  set (s4 := snd (update s3 (-1))) in *.
  pose proof (well_formed_insert s4 (-3) Hwf) as Hwi.
  destruct (compress_buckets_lists _ (proj1 Hwi)) as [Hr Hs].
  destruct (compress_buckets_fields (insert_element s4 (-3))) as [Hdc _].
  split; [apply well_formed_compress, Hwi|].
  split; [rewrite Hdc; exact Hd|].
  rewrite Hr, Hs. cbn [insert_element bucket_row bucket_sizes].
  rewrite Hrow, Hsz. cbn. split; [|reflexivity].
  repeat f_equal. lra.
Qed.

(** The second split point of [late_hit_state] is the first that triggers. *)
Lemma late_hit_first_trigger : first_trigger late_hit_state 2.
Proof.
  destruct late_hit_lists as (Hwf & Hd & Hrow & Hsz).
  split; [rewrite Hsz; simpl; lia|]. split.
  - apply triggers_far; [assumption|rewrite Hsz; simpl; lia|assumption|].
    rewrite gap_at. unfold n0_at, n1_at. rewrite Hrow, Hsz.
    unfold gap, weighted, Rsqr. cbn. lra.
  - intros j Hj. assert (j = 1%nat) as -> by lia.
    apply triggers_near; [assumption|rewrite Hsz; simpl; lia|assumption|].
    rewrite gap_at. unfold n0_at, n1_at. rewrite Hrow, Hsz.
    unfold gap, weighted, Rsqr. cbn. lra.
Qed.

(** C1 inside the fifth [update] of the stream 0, 0, 1.5, -1, -3: the buckets
    are 0, 1.5, -2 with sizes 2, 1, 2; the first split point stays below its
    threshold, the second exceeds it, and the call keeps the last bucket
    alone, with width 2, total -4 and variance 8. *)
Lemma detect_change_first_hit_witness :
  bucket_sizes late_hit_state = [2%Z; 1%Z; 2%Z] /\
  exists s',
    detect_change late_hit_state = (Ok true, s') /\
    bucket_row s' = [-2] /\ bucket_sizes s' = [2%Z] /\
    width s' = 2%Z /\ total s' = -4 /\ variance s' = 8.
Proof.
  destruct late_hit_lists as (Hwf & Hd & Hrow & Hsz).
  split; [assumption|].
  destruct (detect_change_first_hit late_hit_state Hwf) as [Hhit _].
  destruct (Hhit 2%nat late_hit_first_trigger)
    as (s' & Hrun & Hr & Hs & Hw & Ht & Hv & _).
  rewrite Hrow, Hsz in *. cbn in Hr, Hs, Hw, Ht, Hv.
  exists s'. repeat split; try assumption; [rewrite Ht|rewrite Hv]; lra.
Defined.

(** * Further properties of [server.py] *)

(** ** ADWIN beyond the default configuration *)

(** X1. A detector constructed with [0 < delta <= 4] never raises: after any
    stream, [update] on any further value returns a boolean and leaves a
    state that satisfies the class invariant. *)
Theorem update_keeps_invariant (d : R) (values : list R) (v : R) :
  0 < d <= 4 ->
  (exists b, fst (update (snd (updates (ADWIN_init d) values)) v) = Ok b) /\
  well_formed (snd (update (snd (updates (ADWIN_init d) values)) v)).
Proof.
  intro Hd.
  assert (Hwf : well_formed (snd (updates (ADWIN_init d) values)))
    by apply well_formed_updates, well_formed_init, Hd.
  split; [apply update_total, Hwf|apply well_formed_update, Hwf].
Qed.

Lemma update_keeps_invariant_witness :
  (exists b, fst (update (snd (updates (ADWIN_init 1) [3; 7])) 100) = Ok b) /\
  well_formed (snd (update (snd (updates (ADWIN_init 1) [3; 7])) 100)).
Proof.
  apply (update_keeps_invariant 1 [3; 7] 100). lra.
Defined.

Lemma eps_cut_bad_delta (d : R) (n0 n1 : Z) :
  (0 < n0)%Z -> (0 < n1)%Z ->
  (d = 0 -> eps_cut d n0 n1 = Raise ZeroDivisionError) /\
  (d < 0 \/ 4 < d -> eps_cut d n0 n1 = Raise ValueError).
Proof.
  intros H0 H1. apply IZR_lt in H0, H1.
  assert (Hs : 0 < 1 / IZR n0 + 1 / IZR n1).
  { apply Rplus_lt_0_compat; apply Rdiv_lt_0_compat; lra. }
  unfold eps_cut. rewrite truediv_ok by lra. cbn [bind]. split.
  - intros ->. unfold Py.truediv.
    destruct (Req_EM_T 0 0); [reflexivity|contradiction].
  - intros [Hneg|Hbig].
    + rewrite truediv_ok by lra. cbn [bind].
      unfold Py.math_log. destruct (Rlt_dec 0 (4 / d)) as [Hq|]; [|reflexivity].
      exfalso. assert (4 / d < 0); [|lra].
      unfold Rdiv. apply Rmult_pos_neg; [lra|]. apply Rinv_lt_0_compat, Hneg.
    + rewrite truediv_ok by lra. cbn [bind].
      assert (Hq : 0 < 4 / d) by (apply Rdiv_lt_0_compat; lra).
      assert (Hq1 : 4 / d < 1).
      { apply Rmult_lt_reg_r with d; [lra|].
        unfold Rdiv. rewrite Rmult_assoc, Rinv_l by lra. lra. }
      rewrite math_log_ok by assumption. cbn [bind].
      assert (Hl : ln (4 / d) < 0)
        by (rewrite <- ln_1; apply ln_increasing; assumption).
      unfold Py.math_sqrt.
      destruct (Rle_dec 0 _) as [Hge|]; [|reflexivity].
      exfalso. rewrite eps_arg in Hge by assumption.
      assert (0 < / (IZR n0 + IZR n1)) by (apply Rinv_0_lt_compat; lra).
      unfold Rdiv in Hge. nra.
Qed.

(** X2. With two or more buckets of positive size, [detect_change] raises at
    its first split point when [delta] is outside (0, 4]: ZeroDivisionError
    for [delta = 0] (from [4 / delta]) and ValueError for [delta < 0] (from
    [math.log]) or [delta > 4] (from [math.sqrt]); the state is left as it
    was. *)
Theorem detect_change_bad_delta (s : ADWIN) :
  Forall (fun z => (0 < z)%Z) (bucket_sizes s) ->
  (2 <= length (bucket_sizes s))%nat ->
  (delta s = 0 -> detect_change s = (Raise ZeroDivisionError, s)) /\
  (delta s < 0 \/ 4 < delta s -> detect_change s = (Raise ValueError, s)).
Proof.
  intros Hpos Hlen. unfold detect_change.
  destruct (length (bucket_sizes s) - 1)%nat as [|m] eqn:Hm; [lia|].
  cbn [seq detect_loop].
  assert (Hn : (0 < Py.isum (firstn 1 (bucket_sizes s)))%Z /\
               (0 < Py.isum (skipn 1 (bucket_sizes s)))%Z).
  { rewrite <- (firstn_skipn 1 (bucket_sizes s)) in Hpos.
    apply Forall_app in Hpos as [Hf Hs].
    split; apply isum_pos; try assumption; intro E;
      apply (f_equal (@length Z)) in E;
      rewrite ?length_firstn, ?length_skipn in E;
      change (length (@nil Z)) with O in E; lia. }
  destruct Hn as [H0 H1].
  destruct (Z.eqb_spec (Py.isum (firstn 1 (bucket_sizes s))) 0); [lia|].
  destruct (Z.eqb_spec (Py.isum (skipn 1 (bucket_sizes s))) 0); [lia|].
  cbn [orb]. unfold split_exceeds.
  destruct (eps_cut_bad_delta (delta s) _ _ H0 H1) as [Hz Hv].
  split; intro Hd; [rewrite (Hz Hd)|rewrite (Hv Hd)]; reflexivity.
Qed.

(** X2 on a detector built with [delta = 0] and on one built with
    [delta = 5], each holding the buckets [2; 1]. *)
Lemma detect_change_bad_delta_witness :
  fst (detect_change (mkADWIN 0 [1; 9] [2; 1]%Z 11 83 3)) = Raise ZeroDivisionError /\
  fst (detect_change (mkADWIN 5 [1; 9] [2; 1]%Z 11 83 3)) = Raise ValueError.
Proof.
  assert (Hpos : Forall (fun z => (0 < z)%Z) [2; 1]%Z) by (repeat constructor).
  assert (Hlen : (2 <= length [2; 1]%Z)%nat) by (simpl; lia).
  assert (H5 : 5 < 0 \/ 4 < 5) by (right; lra).
  split.
  - rewrite (proj1 (detect_change_bad_delta (mkADWIN 0 [1; 9] [2; 1]%Z 11 83 3)
                      Hpos Hlen) eq_refl).
    reflexivity.
  - rewrite (proj2 (detect_change_bad_delta (mkADWIN 5 [1; 9] [2; 1]%Z 11 83 3)
                      Hpos Hlen) H5).
    reflexivity.
Defined.

(** X3. [ADWIN.__init__] accepts any [delta], and a bad one goes unnoticed
    for two calls: whatever the values, the first two [update] calls return
    False (one bucket has no split point), and the third raises at its only
    split point - ZeroDivisionError for [delta = 0], ValueError for
    [delta < 0] or [delta > 4]. *)
Theorem bad_delta_third_update (d v1 v2 v3 : R) :
  fst (updates (ADWIN_init d) [v1; v2]) = [Ok false; Ok false] /\
  (d = 0 ->
   fst (updates (ADWIN_init d) [v1; v2; v3])
   = [Ok false; Ok false; Raise ZeroDivisionError]) /\
  (d < 0 \/ 4 < d ->
   fst (updates (ADWIN_init d) [v1; v2; v3])
   = [Ok false; Ok false; Raise ValueError]).
Proof.
  split; [reflexivity|].
  destruct (eps_cut_bad_delta d 2 1 ltac:(lia) ltac:(lia)) as [Hz Hv].
  split; intro Hd;
    unfold updates, update, detect_change, insert_element, compress_buckets;
    cbn -[eps_cut split_exceeds Rdiv Rplus Rmult Rminus INR IZR Rabs Py.gt];
    unfold split_exceeds; cbn [delta];
    [rewrite (Hz Hd)|rewrite (Hv Hd)]; reflexivity.
Qed.

(** X3 on the values 1, 2, 3 with [delta = 0] and with [delta = 5]. *)
Lemma bad_delta_third_update_witness :
  fst (updates (ADWIN_init 0) [1; 2; 3])
  = [Ok false; Ok false; Raise ZeroDivisionError] /\
  fst (updates (ADWIN_init 5) [1; 2; 3])
  = [Ok false; Ok false; Raise ValueError].
Proof.
  split.
  - apply (proj1 (proj2 (bad_delta_third_update 0 1 2 3))). reflexivity.
  - apply (proj2 (proj2 (bad_delta_third_update 5 1 2 3))). right. lra.
Defined.

(** ** How the window grows *)

Lemma grow_pairs (j : nat) :
  grow (pairs j) = pairs j ++ [1%Z] /\
  grow (pairs j ++ [1%Z]) = pairs j ++ [2%Z] /\
  grow (pairs j ++ [2%Z]) = pairs (S j).
Proof.
  unfold grow, compress_sizes.
  rewrite <- !app_assoc, !length_app, pairs_length. simpl length. simpl app.
  destruct (sizes_from_settled j [] (2 * j + 1)) as (-> & _); [lia|].
  destruct (sizes_from_settled j [] (2 * j + (1 + 1))) as (_ & -> & ->); [lia|].
  rewrite pairs_snoc. repeat split.
Qed.

Lemma iter_grow_pairs (k : nat) :
  Nat.iter (3 * k) grow [] = pairs k /\
  Nat.iter (3 * k + 1) grow [] = pairs k ++ [1%Z] /\
  Nat.iter (3 * k + 2) grow [] = pairs k ++ [2%Z].
Proof.
  induction k as [|k (H0 & H1 & H2)].
  - repeat split.
  - destruct (grow_pairs k) as (_ & _ & G2).
    destruct (grow_pairs (S k)) as (G0 & G1 & _).
    assert (E0 : Nat.iter (3 * S k) grow [] = pairs (S k)).
    { replace (3 * S k)%nat with (S (3 * k + 2)) by lia.
      rewrite Nat.iter_succ, H2. exact G2. }
    assert (E1 : Nat.iter (3 * S k + 1) grow [] = pairs (S k) ++ [1%Z]).
    { replace (3 * S k + 1)%nat with (S (3 * S k)) by lia.
      rewrite Nat.iter_succ, E0. exact G0. }
    repeat split; try assumption.
    replace (3 * S k + 2)%nat with (S (3 * S k + 1)) by lia.
    rewrite Nat.iter_succ, E1. exact G1.
Qed.

Lemma quiet_sizes (values : list R) (s : ADWIN) :
  length (bucket_row s) = length (bucket_sizes s) ->
  Forall (fun r => r = Ok false) (fst (updates s values)) ->
  length (bucket_row (snd (updates s values)))
  = length (bucket_sizes (snd (updates s values))) /\
  bucket_sizes (snd (updates s values))
  = Nat.iter (length values) grow (bucket_sizes s).
Proof.
  revert s; induction values as [|v values IH]; intros s Hlen Hq.
  - split; [assumption|reflexivity].
  - rewrite updates_cons. simpl in Hq.
    destruct (update s v) as [r s1] eqn:Hup.
    destruct (updates s1 values) as [rs s2] eqn:Hups.
    simpl in Hq. inversion Hq as [|? ? Hr Hrs]; subst.
    destruct (quiet_update s v Hlen) as (_ & Hlen1 & Hsz1);
      [rewrite Hup; reflexivity|].
    rewrite Hup in *. cbn [snd] in *.
    destruct (IH s1 Hlen1) as [Hl Hs]; [rewrite Hups; assumption|].
    split; [assumption|].
    rewrite Hs, Hsz1. cbn [length]. apply iter_grow_shift.
Qed.

Lemma pairs_small (j : nat) : Forall (fun z => (z <= 2)%Z) (pairs j).
Proof. induction j; simpl; repeat constructor; try lia; assumption. Qed.

(** X4. While no change is reported the history is not coarsened beyond
    pairs: after [n] calls the bucket sizes are [2; 1; 2; 1; ...], no bucket
    is larger than 2, and there are [n - (n + 1) / 3] buckets, about two
    thirds of the number of values. *)
Theorem quiet_stream_bucket_count (d : R) (values : list R) :
  quiet d values ->
  length (bucket_sizes (snd (updates (ADWIN_init d) values)))
  = (length values - (length values + 1) / 3)%nat /\
  Forall (fun z => (z <= 2)%Z) (bucket_sizes (snd (updates (ADWIN_init d) values))).
Proof.
  intro Hq. destruct (quiet_sizes values (ADWIN_init d) eq_refl Hq) as [_ Hs].
  rewrite Hs. cbn [ADWIN_init bucket_sizes].
  generalize (length values). clear. intro n.
  assert (Hc : exists q, (n = 3 * q \/ n = 3 * q + 1 \/ n = 3 * q + 2)%nat).
  { exists (n / 3)%nat. pose proof (Nat.div_mod_eq n 3).
    pose proof (Nat.mod_upper_bound n 3 ltac:(lia)). lia. }
  destruct Hc as (q & [->|[->| ->]]);
    destruct (iter_grow_pairs q) as (H0 & H1 & H2).
  - rewrite H0, pairs_length. split; [|apply pairs_small].
    rewrite <- (Nat.div_unique (3 * q + 1) 3 q 1) by lia. lia.
  - rewrite H1, length_app, pairs_length. simpl length.
    split; [|apply Forall_app; split; [apply pairs_small|repeat constructor; lia]].
    rewrite <- (Nat.div_unique (3 * q + 1 + 1) 3 q 2) by lia. lia.
  - rewrite H2, length_app, pairs_length. simpl length.
    split; [|apply Forall_app; split; [apply pairs_small|repeat constructor; lia]].
    rewrite <- (Nat.div_unique (3 * q + 2 + 1) 3 (S q) 0) by lia. lia.
Qed.

(** X4 on seven equal values: five buckets. *)
Lemma quiet_stream_bucket_count_witness :
  length (bucket_sizes (snd (updates (ADWIN_init default_delta) (repeat 4 7))))
  = 5%nat.
Proof.
  exact (proj1 (quiet_stream_bucket_count default_delta (repeat 4 7)
                  (quiet_constant 4 7))).
Defined.

Lemma detect_loop_state_in (s : ADWIN) (idxs : list nat) :
  (fst (detect_loop s idxs) <> Ok true /\ snd (detect_loop s idxs) = s) \/
  (exists i, In i idxs /\
             detect_loop s idxs
             = (Ok true, shrink s i (Py.isum (skipn i (bucket_sizes s))))).
Proof.
  induction idxs as [|i rest IH]; cbn [detect_loop].
  - left. split; [discriminate|reflexivity].
  - assert (IH' : (fst (detect_loop s rest) <> Ok true /\
                   snd (detect_loop s rest) = s) \/
                  (exists j, In j (i :: rest) /\
                     detect_loop s rest
                     = (Ok true, shrink s j (Py.isum (skipn j (bucket_sizes s)))))).
    { destruct IH as [IH|(j & Hj & IH)]; [now left|].
      right. exists j. split; [now right|assumption]. }
    destruct ((Py.isum (firstn i (bucket_sizes s)) =? 0)%Z
              || (Py.isum (skipn i (bucket_sizes s)) =? 0)%Z); [exact IH'|].
    destruct (split_exceeds s i _ _) as [[|]|e]; simpl.
    + right. exists i. split; [now left|reflexivity].
    + exact IH'.
    + left. split; [discriminate|reflexivity].
Qed.

(** X5. Each [update] on a detector fed from scratch either reports no
    change and widens the window by one element, or reports a change and
    leaves a window that is not wider than before the call; in both cases at
    least one bucket, holding at least one element, remains. *)
Theorem update_width_step (d : R) (values : list R) (v : R) :
  bucket_sizes (snd (update (snd (updates (ADWIN_init d) values)) v)) <> [] /\
  (fst (update (snd (updates (ADWIN_init d) values)) v) = Ok true ->
   (0 < width (snd (update (snd (updates (ADWIN_init d) values)) v))
    <= width (snd (updates (ADWIN_init d) values)))%Z) /\
  (fst (update (snd (updates (ADWIN_init d) values)) v) <> Ok true ->
   width (snd (update (snd (updates (ADWIN_init d) values)) v))
   = (width (snd (updates (ADWIN_init d) values)) + 1)%Z).
Proof.
  destruct (sized_updates d values) as (Hlen & Hpos & Hw).
  set (s := snd (updates (ADWIN_init d) values)) in *.
  set (c := compress_buckets (insert_element s v)).
  assert (Hli : length (bucket_row (insert_element s v))
                = length (bucket_sizes (insert_element s v)))
    by (simpl; rewrite !length_app, Hlen; reflexivity).
  pose proof (compress_buckets_scan _ Hli) as Hscan. fold c in Hscan.
  assert (Hpc : Forall (fun z => (0 < z)%Z) (bucket_sizes c)).
  { apply (scan_positive _ _ _ _ Hscan). simpl.
    apply Forall_app. split; [assumption|repeat constructor]. }
  assert (Hwc : Py.isum (bucket_sizes c) = (width s + 1)%Z).
  { rewrite (scan_isum _ _ _ _ Hscan). simpl. rewrite isum_snoc.
    unfold width_consistent in Hw. lia. }
  assert (Hwidth : width c = (width s + 1)%Z).
  { unfold c. destruct (compress_buckets_fields (insert_element s v))
      as (_ & _ & _ & ->). reflexivity. }
  assert (Hw0 : (0 <= width s)%Z).
  { unfold width_consistent in Hw. rewrite Hw.
    destruct (bucket_sizes s) as [|z l] eqn:E; [cbv; discriminate|].
    assert (0 < Py.isum (z :: l))%Z by (apply isum_pos; [assumption|discriminate]).
    lia. }
  assert (Hne : bucket_sizes c <> []).
  { intro E. rewrite E in Hwc. change (Py.isum []) with 0%Z in Hwc. lia. }
  unfold update, detect_change. fold c.
  destruct (detect_loop_state_in c (seq 1 (length (bucket_sizes c) - 1)))
    as [[Hno Hsame]|(i & Hi & Hrun)].
  - rewrite Hsame. split; [assumption|]. split; [contradiction|].
    intros _. exact Hwidth.
  - rewrite Hrun. cbn [fst snd shrink bucket_sizes width].
    apply in_seq in Hi.
    rewrite <- (firstn_skipn i (bucket_sizes c)) in Hpc.
    apply Forall_app in Hpc as [Hf Hs].
    assert (H0 : (0 < Py.isum (firstn i (bucket_sizes c)))%Z).
    { apply isum_pos; [assumption|]. intro E.
      apply (f_equal (@length Z)) in E. rewrite length_firstn in E.
      change (length (@nil Z)) with O in E. lia. }
    assert (Hskip : skipn i (bucket_sizes c) <> []).
    { intro E. apply (f_equal (@length Z)) in E. rewrite length_skipn in E.
      change (length (@nil Z)) with O in E. lia. }
    assert (H1 : (0 < Py.isum (skipn i (bucket_sizes c)))%Z)
      by (apply isum_pos; assumption).
    pose proof (isum_app (firstn i (bucket_sizes c)) (skipn i (bucket_sizes c)))
      as Hsum.
    rewrite firstn_skipn, Hwc in Hsum.
    split; [assumption|]. split; [intros _; lia|].
    intro H. exfalso. apply H. reflexivity.
Qed.

Lemma scan_count (row : list R) (sizes : list Z) (row' : list R) (sizes' : list Z) :
  scan row sizes row' sizes' -> (length sizes' <= length sizes)%nat.
Proof.
  induction 1 as [| | ? ? ? ? ? ? ? ? ? ? IH | run s ? ? ? ? Hrun ? IH];
    simpl; try lia.
  rewrite length_app, repeat_length. lia.
Qed.

(** X6. On any state whose two bucket lists have the same length,
    [compress_buckets] never adds a bucket, keeps the lists parallel and the
    sizes positive, and conserves the number of elements summarised (the sum
    of the sizes); [delta], [total], [variance] and [width] are not
    touched. *)
Theorem compress_conserves (s : ADWIN) :
  length (bucket_row s) = length (bucket_sizes s) ->
  (length (bucket_sizes (compress_buckets s)) <= length (bucket_sizes s))%nat /\
  length (bucket_row (compress_buckets s))
  = length (bucket_sizes (compress_buckets s)) /\
  Py.isum (bucket_sizes (compress_buckets s)) = Py.isum (bucket_sizes s) /\
  (Forall (fun z => (0 < z)%Z) (bucket_sizes s) ->
   Forall (fun z => (0 < z)%Z) (bucket_sizes (compress_buckets s))) /\
  (delta (compress_buckets s), total (compress_buckets s),
   variance (compress_buckets s), width (compress_buckets s))
  = (delta s, total s, variance s, width s).
Proof.
  intro Hlen. pose proof (compress_buckets_scan s Hlen) as Hscan.
  destruct (compress_buckets_fields s) as (-> & -> & -> & ->).
  repeat split.
  - apply (scan_count _ _ _ _ Hscan).
  - apply (scan_length _ _ _ _ Hscan).
  - apply (scan_isum _ _ _ _ Hscan).
  - apply (scan_positive _ _ _ _ Hscan).
Qed.

(** X6 on three unit buckets 1, 2, 6: they become one bucket. *)
Lemma compress_conserves_witness :
  (length (bucket_sizes (compress_buckets three_units)) <= 3)%nat /\
  Py.isum (bucket_sizes (compress_buckets three_units)) = 3%Z.
Proof.
  destruct (compress_conserves three_units eq_refl) as (Hc & _ & Hs & _).
  split; [exact Hc|exact Hs].
Defined.

(** ** The trailing window of [AnomalyDetector] *)

Lemma detections_snoc (d : AnomalyDetector) (values : list R) (v : R) :
  snd (detections d (values ++ [v]))
  = snd (detect_anomaly (snd (detections d values)) v).
Proof.
  revert d; induction values as [|x values IH]; intro d; simpl.
  - destruct (detect_anomaly d v). reflexivity.
  - destruct (detect_anomaly d x) as [r d1]. specialize (IH d1).
    destruct (detections d1 (values ++ [v])). destruct (detections d1 values).
    exact IH.
Qed.

Lemma detect_anomaly_state (d : AnomalyDetector) (v : R) :
  snd (detect_anomaly d v)
  = {| adwin := snd (update (adwin d) v);
       window := deque_append (maxlen d) (window d) v;
       maxlen := maxlen d; z_threshold := z_threshold d |}.
Proof.
  unfold detect_anomaly. destruct (update (adwin d) v). reflexivity.
Qed.

Lemma keep_last_snoc (n : nat) (l : list R) (x : R) :
  deque_append n (skipn (length l - n) l) x = skipn (length (l ++ [x]) - n) (l ++ [x]).
Proof.
  unfold deque_append. rewrite !length_app, length_skipn. simpl length.
  destruct n as [|n].
  { rewrite !Nat.sub_0_r, Nat.sub_diag, skipn_all. simpl app.
    change (skipn (0 + 1) [x]) with (@nil R).
    symmetry. apply skipn_all2. rewrite length_app. simpl. lia. }
  set (m := S n) in *. assert (Hm : (0 < m)%nat) by (subst m; lia). clearbody m.
  clear n. rename m into n.
  destruct (Nat.le_gt_cases (length l) n) as [Hle|Hgt].
  - replace (length l - n)%nat with O by lia. simpl skipn.
    replace (length l - 0 + 1 - n)%nat with (length l + 1 - n)%nat by lia.
    reflexivity.
  - replace (length l - (length l - n) + 1 - n)%nat with 1%nat by lia.
    replace (length l + 1 - n)%nat with (S (length l - n)) by lia.
    rewrite (skipn_app (S (length l - n))).
    replace (S (length l - n) - length l)%nat with O by lia. simpl (skipn 0 _).
    destruct (skipn (length l - n) l) as [|y tl] eqn:E.
    + apply (f_equal (@length R)) in E. rewrite length_skipn in E.
      simpl in E. lia.
    + replace (S (length l - n)) with (length l - n + 1)%nat by lia.
      rewrite skipn_plus, E. reflexivity.
Qed.

Lemma detections_state (ws : nat) (z : R) (values : list R) :
  adwin (snd (detections (AnomalyDetector_init ws z) values))
  = snd (updates (ADWIN_init default_delta) values) /\
  window (snd (detections (AnomalyDetector_init ws z) values))
  = skipn (length values - ws) values /\
  maxlen (snd (detections (AnomalyDetector_init ws z) values)) = ws /\
  z_threshold (snd (detections (AnomalyDetector_init ws z) values)) = z.
Proof.
  induction values as [|v values (Ha & Hw & Hm & Hz)] using rev_ind.
  - simpl. repeat split.
  - rewrite detections_snoc, detect_anomaly_state. cbn [adwin window maxlen z_threshold].
    rewrite Ha, Hw, Hm, Hz. repeat split.
    + rewrite updates_app, updates_cons, updates_nil. reflexivity.
    + apply keep_last_snoc.
Qed.

(** X7. After any stream fed to a fresh [AnomalyDetector] of capacity
    [window_size], the trailing window holds exactly the last [window_size]
    values fed (all of them while fewer were fed), oldest first. *)
Theorem window_keeps_last_values (window_size : nat) (z : R) (values : list R) :
  window (snd (detections (AnomalyDetector_init window_size z) values))
  = skipn (length values - window_size) values /\
  length (window (snd (detections (AnomalyDetector_init window_size z) values)))
  = Nat.min window_size (length values).
Proof.
  destruct (detections_state window_size z values) as (_ & Hw & _).
  rewrite Hw, length_skipn. split; [reflexivity|lia].
Qed.

(** X8. A detector of capacity 0 raises ZeroDivisionError on every call:
    its window stays empty, so it always counts as full and the mean divides
    by [len(self.window) = 0]. *)
Theorem zero_capacity_raises (z : R) (values : list R) (v : R) :
  fst (detect_anomaly (snd (detections (AnomalyDetector_init 0 z) values)) v)
  = Raise ZeroDivisionError.
Proof.
  destruct (detections_state 0 z values) as (Ha & Hw & Hm & _).
  set (d := snd (detections (AnomalyDetector_init 0 z) values)) in *.
  assert (Hwf : well_formed (adwin d)).
  { rewrite Ha. apply well_formed_updates, well_formed_init, default_delta_ok. }
  destruct (update_total (adwin d) v Hwf) as [b Hb].
  unfold detect_anomaly. rewrite Hm.
  destruct (update (adwin d) v) as [r a]. cbn [fst] in *. subst r.
  cbn [bind]. unfold deque_append. rewrite Nat.sub_0_r, skipn_all.
  cbn [length Nat.ltb Nat.leb]. unfold z_test, Py.truediv. cbn [length INR].
  destruct (Req_EM_T 0 0); [reflexivity|contradiction].
Qed.





Lemma serve_after_terminator (float_of : string -> option R)
      (before after : list string) (t : string) (d : AnomalyDetector) :
  terminator t ->
  serve float_of d (before ++ t :: after) = serve float_of d (before ++ [t]).
Proof.
  intro Ht. revert d. induction before as [|data before IH]; intro d.
  - cbn [app serve]. unfold serve_one.
    apply terminator_eqb in Ht. rewrite Ht. reflexivity.
  - cbn [app serve].
    destruct (serve_one float_of d data) as [out [|d1|e]]; try reflexivity.
    rewrite IH. reflexivity.
Qed.

(** X11. Whatever arrives after the first empty payload or [exit] is never
    looked at: the session is the one that stops at that payload. *)
Theorem payloads_after_terminator_ignored (float_of : string -> option R)
        (before after : list string) (t : string) :
  terminator t ->
  start_server float_of (before ++ t :: after)
  = start_server float_of (before ++ [t]).
Proof.
  intro Ht. unfold start_server.
  rewrite (serve_after_terminator float_of before after t _ Ht). reflexivity.
Qed.

(** X11 on a session with one value before [exit] and two payloads after. *)
Lemma payloads_after_terminator_ignored_witness :
  start_server decimal_float (["5"; "exit"; "7"; "x"])%string
  = start_server decimal_float (["5"; "exit"])%string.
Proof.
  apply (payloads_after_terminator_ignored decimal_float
           ["5"%string] ["7"%string; "x"%string] "exit"%string).
  right. reflexivity.
Defined.

(** * Properties of [simulate_data.py] *)

(** X15. With the noise in [-2, 2] and the bump in [30, 40], as
    [random.uniform] draws them, a value not marked as anomaly lies in
    [28, 72] and a marked one in [58, 112]; the mark is set exactly when
    [random.random()] came out below 0.05. *)
Theorem simulate_data_range (t : Z) (r : draws) :
  -2 <= noise r <= 2 -> 30 <= bump r <= 40 ->
  (snd (simulate_data t r) = true <-> chance r < 0.05) /\
  (snd (simulate_data t r) = false -> 28 <= fst (simulate_data t r) <= 72) /\
  (snd (simulate_data t r) = true -> 58 <= fst (simulate_data t r) <= 112).
Proof.
  intros Hn Hb.
  pose proof (SIN_bound (2 * PI * IZR t / 24)) as H1.
  pose proof (SIN_bound (2 * PI * IZR t / 365)) as H2.
  unfold simulate_data, regular_pattern, seasonal_pattern.
  destruct (Rlt_dec (chance r) 0.05) as [Hc|Hc]; cbn [fst snd].
  - split; [tauto|]. split; [discriminate|]. intros _. lra.
  - split; [split; [discriminate|contradiction]|].
    split; [intros _; lra|discriminate].
Qed.

(** X15 at step 6 with an injected anomaly. *)
Lemma simulate_data_range_witness :
  (snd (simulate_data 6 {| noise := 1; chance := 0; bump := 35 |}) = true
   <-> 0 < 0.05) /\
  (snd (simulate_data 6 {| noise := 1; chance := 0; bump := 35 |}) = false ->
   28 <= fst (simulate_data 6 {| noise := 1; chance := 0; bump := 35 |}) <= 72) /\
  (snd (simulate_data 6 {| noise := 1; chance := 0; bump := 35 |}) = true ->
   58 <= fst (simulate_data 6 {| noise := 1; chance := 0; bump := 35 |}) <= 112).
Proof.
  apply (simulate_data_range 6 {| noise := 1; chance := 0; bump := 35 |});
    simpl; lra.
Defined.

(** ** The replies as the client reads them *)

Lemma append_empty_r (s : string) : (s ++ "")%string = s.
Proof. induction s as [|c s IH]; simpl; [|rewrite IH]; reflexivity. Qed.

Lemma append_snoc (cur rest : string) (c : ascii) :
  ((cur ++ String c "") ++ rest)%string = (cur ++ String c rest)%string.
Proof. induction cur as [|x cur IH]; simpl; [|rewrite IH]; reflexivity. Qed.

(** A text without the separator is one piece. *)
Lemma split_from_whole (sep cur s : string) :
  Client.contains sep s = false ->
  Client.split_from sep 0 cur s = [(cur ++ s)%string].
Proof.
  revert cur. induction s as [|c rest IH]; intros cur H.
  - simpl. rewrite append_empty_r. reflexivity.
  - cbn [Client.contains] in H. apply orb_false_iff in H. destruct H as [H1 H2].
    cbn [Client.split_from]. rewrite H1, IH by assumption.
    rewrite append_snoc. reflexivity.
Qed.

(** The client reads value and verdict back from each of the three formatted
    replies. *)
Lemma enqueue_reply (float_of : string -> option R) (show : R -> string)
      (is_anomaly concept_drift : bool) (v : R) :
  float_of (show v) = Some v ->
  Client.contains ": " (show v) = false ->
  Client.contains "Anomaly detected" (show v) = false ->
  Client.enqueue float_of (wire show (response is_anomaly concept_drift v))
  = inr (v, is_anomaly).
Proof.
  intros Hf Hsep Hword. unfold Client.enqueue, Client.split.
  destruct is_anomaly; [|destruct concept_drift]; cbn [response wire];
    revert Hf Hsep Hword; generalize (show v); intros s Hf Hsep Hword; cbn;
    rewrite ?Hword; rewrite (split_from_whole ": " "" s Hsep); cbn;
    rewrite Hf; reflexivity.
Qed.

(** X17. One round of client and server: when the client sends [str(v)],
    [float] reads it back as [v] and the detector returns its two flags, the
    server sends one reply, and from that reply the client queues [v] itself
    together with the server's verdict [is_anomaly]. *)
Theorem client_queues_server_verdict
        (float_of : string -> option R) (show : R -> string)
        (d d1 : AnomalyDetector) (v : R) (is_anomaly concept_drift : bool) :
  ~ terminator (show v) ->
  float_of (show v) = Some v ->
  Client.contains ": " (show v) = false ->
  Client.contains "Anomaly detected" (show v) = false ->
  detect_anomaly d v = (Ok (is_anomaly, concept_drift), d1) ->
  exists m,
    replies (fst (serve_one float_of d (show v))) = [m] /\
    snd (serve_one float_of d (show v)) = Continue d1 /\
    Client.enqueue float_of (wire show m) = inr (v, is_anomaly).
Proof.
  intros Ht Hf Hsep Hword Hrun.
  exists (response is_anomaly concept_drift v).
  unfold serve_one. rewrite not_terminator_eqb, Hf, Hrun by assumption.
  repeat split. apply enqueue_reply; assumption.
Qed.

(** X17 with the value 42.5 sent as its decimal text to a fresh server. *)
Lemma client_queues_server_verdict_witness :
  exists m,
    replies (fst (serve_one decimal_float (AnomalyDetector_init 50 3) "42.5"))
    = [m] /\
    Client.enqueue decimal_float (wire (fun _ => "42.5"%string) m)
    = inr (425 / 10, false).
Proof.
  destruct (client_queues_server_verdict decimal_float (fun _ => "42.5"%string)
              (AnomalyDetector_init 50 3)
              (snd (detect_anomaly (AnomalyDetector_init 50 3) (425 / 10)))
              (425 / 10) false false)
    as (m & Hm & _ & Hq).
  - intros [H|H]; discriminate.
  - reflexivity.
  - reflexivity.
  - reflexivity.
  - reflexivity.
  - exists m. split; assumption.
Defined.

(** X18. A response without the separator [": "] - the server's
    [Invalid data] is one - makes the index [[1]] raise [IndexError], in
    either branch; the loop catches [KeyboardInterrupt] only. *)
Theorem reply_without_separator_raises
        (float_of : string -> option R) (response : string) :
  Client.contains ": " response = false ->
  Client.enqueue float_of response = inl Client.IndexError.
Proof.
  intro H. unfold Client.enqueue, Client.split.
  rewrite (split_from_whole ": " "" response H). cbn [nth_error].
  destruct (Client.contains "Anomaly detected" response); reflexivity.
Qed.

(** X18 on the reply to a rejected payload. *)
Lemma reply_without_separator_raises_witness :
  Client.enqueue decimal_float (wire (fun _ => "0"%string) (Text "Invalid data"))
  = inl Client.IndexError.
Proof.
  apply (reply_without_separator_raises decimal_float "Invalid data").
  reflexivity.
Defined.

(** * Properties of [visualize.py] *)

(** The two lists after the queue has been emptied. *)
Lemma drain_lists (queue : list (R * bool)) (h : Visualize.history) :
  Visualize.data_stream (Visualize.drain queue h)
  = Visualize.data_stream h ++ map fst queue /\
  Visualize.anomalies (Visualize.drain queue h)
  = Visualize.anomalies h
    ++ map (fun p : R * bool => if snd p then Some (fst p) else None) queue.
Proof.
  revert h. induction queue as [|[data_point is_anomaly] rest IH]; intro h.
  - simpl. rewrite !app_nil_r. split; reflexivity.
  - cbn [Visualize.drain]. rewrite (proj1 (IH _)), (proj2 (IH _)).
    cbn [Visualize.data_stream Visualize.anomalies map fst snd].
    rewrite <- !app_assoc. split; reflexivity.
Qed.

Lemma drain_app (q1 q2 : list (R * bool)) (h : Visualize.history) :
  Visualize.drain (q1 ++ q2) h = Visualize.drain q2 (Visualize.drain q1 h).
Proof.
  revert h. induction q1 as [|[data_point is_anomaly] q1 IH]; intro h.
  - reflexivity.
  - cbn [app Visualize.drain]. apply IH.
Qed.

(** Frames compose: what matters is the order of arrival, not the frame in
    which an entry was read. *)
Lemma frames_drain (queues : list (list (R * bool))) (h : Visualize.history) :
  Visualize.frames queues h = Visualize.drain (concat queues) h.
Proof.
  revert h. induction queues as [|queue rest IH]; intro h.
  - reflexivity.
  - cbn [Visualize.frames concat]. rewrite IH, drain_app. reflexivity.
Qed.

Lemma anomaly_values_flagged (queue : list (R * bool)) :
  Visualize.anomaly_values
    (map (fun p : R * bool => if snd p then Some (fst p) else None) queue)
  = map fst (filter snd queue).
Proof.
  unfold Visualize.anomaly_values.
  induction queue as [|[v [|]] rest IH]; simpl; rewrite ?IH; reflexivity.
Qed.

Lemma update_calls (queue : list (R * bool)) (h : Visualize.history) :
  (forall line, In (Visualize.Plot line) (fst (Visualize.update queue h)) ->
     line = Visualize.data_stream (Visualize.drain queue h)) /\
  (forall xs ys, In (Visualize.Scatter xs ys) (fst (Visualize.update queue h)) ->
     xs = Visualize.anomaly_indices (Visualize.anomalies (Visualize.drain queue h)) /\
     ys = Visualize.anomaly_values (Visualize.anomalies (Visualize.drain queue h))).
Proof.
  unfold Visualize.update. cbn [fst].
  destruct (Visualize.anomalies (Visualize.drain queue h)) as [|m marks];
    split; intros * H; simpl in H;
    repeat (destruct H as [H|H]; try discriminate H);
    try contradiction; inversion H; subst; auto.
Qed.

(** X19. Every frame draws the whole history: its line is the list of all
    values ever queued, in the order of arrival, whichever frames read them;
    once a value has arrived there is one scatter call, whose values are those
    queued with the flag [True].  Nothing is ever trimmed from the two
    lists. *)
Theorem plot_keeps_whole_history
        (queues : list (list (R * bool))) (queue : list (R * bool)) :
  exists markers,
    fst (Visualize.update queue (Visualize.frames queues Visualize.initial))
    = [Visualize.Clear; Visualize.Plot (map fst (concat queues ++ queue))]
      ++ markers
      ++ [Visualize.Legend; Visualize.SetTitle; Visualize.SetXlabel;
          Visualize.SetYlabel] /\
    (concat queues ++ queue = [] -> markers = []) /\
    (concat queues ++ queue <> [] ->
     exists xs,
       markers
       = [Visualize.Scatter xs (map fst (filter snd (concat queues ++ queue)))]).
Proof.
  rewrite frames_drain. unfold Visualize.update. cbn [fst].
  rewrite <- drain_app.
  destruct (drain_lists (concat queues ++ queue) Visualize.initial) as [H1 H2].
  cbn [Visualize.initial Visualize.data_stream Visualize.anomalies app] in H1, H2.
  rewrite H1, H2.
  destruct (concat queues ++ queue) as [|p all] eqn:E.
  - exists []. repeat split. intro H. contradiction.
  - rewrite <- anomaly_values_flagged. cbn [map].
    eexists. split; [reflexivity|]. split; [discriminate|].
    intros _. eexists. reflexivity.
Qed.

(** Each marker sits at the index of its value. *)
Lemma marks_on_line (line : list R) (marks : list (option R)) (k : nat) :
  Forall2 (fun y m => m = None \/ m = Some y) line marks ->
  Forall2 (fun i y => (k <= i)%nat /\ nth_error line (i - k) = Some y)
          (flat_map (fun p : nat * option R => match snd p with Some _ => [fst p] | None => [] end)
                    (Visualize.enumerate k marks))
          (Visualize.anomaly_values marks).
Proof.
  intro H. revert k. induction H as [|y m line marks Hm _ IH]; intro k.
  - constructor.
  - assert (Hrest :
      Forall2 (fun i y0 => (k <= i)%nat /\ nth_error (y :: line) (i - k) = Some y0)
              (flat_map (fun p : nat * option R => match snd p with Some _ => [fst p] | None => [] end)
                        (Visualize.enumerate (S k) marks))
              (Visualize.anomaly_values marks)).
    { eapply Forall2_impl; [|apply (IH (S k))].
      intros i y0 [Hi Hn]. split; [lia|].
      replace (i - k)%nat with (S (i - S k)) by lia. exact Hn. }
    cbn [Visualize.enumerate flat_map snd fst].
    unfold Visualize.anomaly_values in *. cbn [flat_map].
    destruct Hm as [->| ->]; cbn [app]; [assumption|].
    constructor; [|assumption].
    split; [lia|]. rewrite Nat.sub_diag. reflexivity.
Qed.

Lemma drain_marks (queue : list (R * bool)) (h : Visualize.history) :
  Forall2 (fun y m => m = None \/ m = Some y)
          (Visualize.data_stream h) (Visualize.anomalies h) ->
  Forall2 (fun y m => m = None \/ m = Some y)
          (Visualize.data_stream (Visualize.drain queue h))
          (Visualize.anomalies (Visualize.drain queue h)).
Proof.
  revert h. induction queue as [|[data_point is_anomaly] rest IH]; intros h H.
  - assumption.
  - cbn [Visualize.drain]. apply IH.
    cbn [Visualize.data_stream Visualize.anomalies].
    apply Forall2_app; [assumption|].
    constructor; [|constructor]. destruct is_anomaly; auto.
Qed.

(** X20. In every frame the markers lie on the line: the scatter has as many
    indices as values, and each marker [(i, y)] is drawn where the line has
    the value [y] at index [i]. *)
Theorem markers_on_the_line
        (queues : list (list (R * bool))) (queue : list (R * bool))
        (line : list R) (xs : list nat) (ys : list R) :
  In (Visualize.Plot line)
     (fst (Visualize.update queue (Visualize.frames queues Visualize.initial))) ->
  In (Visualize.Scatter xs ys)
     (fst (Visualize.update queue (Visualize.frames queues Visualize.initial))) ->
  Forall2 (fun i y => nth_error line i = Some y) xs ys.
Proof.
  rewrite frames_drain. intros Hline Hscatter.
  destruct (update_calls queue (Visualize.drain (concat queues) Visualize.initial))
    as [Hp Hs].
  rewrite (Hp line Hline). destruct (Hs xs ys Hscatter) as [-> ->].
  pose proof (marks_on_line _ _ 0
                (drain_marks queue _
                   (drain_marks (concat queues) Visualize.initial
                      (Forall2_nil _)))) as H.
  revert H. apply Forall2_impl.
  intros i y [_ H]. rewrite Nat.sub_0_r in H. exact H.
Qed.

(** X20 on a second frame that reads one flagged value. *)
Lemma markers_on_the_line_witness :
  Forall2 (fun i y => nth_error [1; 2; 9] i = Some y) [2%nat] [9].
Proof.
  apply (markers_on_the_line [[(1, false); (2, false)]] [(9, true)]
           [1; 2; 9] [2%nat] [9]).
  - right. left. reflexivity.
  - right. right. left. reflexivity.
Defined.

(** * The program on binary64 numbers *)

(** ** The bucket sizes do not depend on the arithmetic *)







(** ** C4: a constant stream, in binary64 *)




(** ** C6: the Z-score test on a full window, in binary64 *)






(** ** The scan of [detect_change], in binary64 *)

(** The stream 0, 0, 1.5, -1, -3 runs in binary64 as on the reals: the fifth
    [update] reaches [detect_change] with buckets 0, 1.5, -2 of sizes 2, 1, 2,
    the first split point does not trigger, the second does, and the window
    left is the one bucket -2 of size 2, with [total] -4 and [variance] 8. *)
Lemma late_hit_binary64 :
  let before := snd (B64.updates B64.log_2000 (B64.ADWIN_init B64.default_delta)
                                 [0; 0; 1.5; -1]%float) in
  let s := B64.compress_buckets (B64.insert_element before (-3)%float) in
  B64.bucket_row s = [0; 1.5; -2]%float /\
  B64.bucket_sizes s = [2; 1; 2]%Z /\
  B64.split_exceeds B64.log_2000 s 1 2 3 = B64.Ok false /\
  B64.split_exceeds B64.log_2000 s 2 3 2 = B64.Ok true /\
  B64.update B64.log_2000 before (-3)%float
  = (B64.Ok true,
     B64.mkADWIN B64.default_delta [-2]%float [2%Z] (-4)%float 8%float 2).
Proof. vm_compute. repeat split. Qed.

(** ** C2: the running total, in binary64 *)

(** The running [total] adds the raw values, the bucket list holds rounded
    means: after 0.3, 0.1, 0.1, 0.1, 0.3, with no change reported, [total] is
    0.8999999999999999 while the buckets 0.2, 0.1, 0.2 of sizes 2, 1, 2 sum
    to 0.9. *)
Lemma running_total_rounds :
  let run := B64.updates B64.log_2000 (B64.ADWIN_init B64.default_delta)
                         [0.3; 0.1; 0.1; 0.1; 0.3]%float in
  fst run = repeat (B64.Ok false) 5 /\
  B64.bucket_sizes (snd run) = [2; 1; 2]%Z /\
  B64.total (snd run) = 0.8999999999999999%float /\
  B64.weighted (B64.bucket_row (snd run)) (B64.bucket_sizes (snd run))
  = 0.9%float.
Proof. vm_compute. repeat split. Qed.

(** ** C8: what ends a session *)

(** C8 fails on the code, by a missed case.  The handler of line 169
    catches ValueError only.  Forty-nine payloads [0] and then [1e200], all of
    them numbers: the 50th call fills the window, the mean is 2e198, and
    [(x - mean) ** 2] raises OverflowError at line 125.  Nothing catches it:
    the loop is left without [break], the 50th payload gets no reply, and
    neither socket is closed.  Bytes that are not UTF-8 end the session in
    the same way, from the [decode] of line 148, before the [try]. *)
Theorem overflow_ends_session :
  let run := B64.start_server B64.log_2000 B64.float_of_str
               (repeat (B64.Utf8 "0") 49 ++ [B64.Utf8 "1e200"]) in
  let cut := B64.start_server B64.log_2000 B64.float_of_str
               [B64.Utf8 "5"; B64.NotUtf8; B64.Utf8 "exit"] in
  snd run = B64.Died B64.OverflowError /\
  length (B64.replies (fst run)) = 49%nat /\
  Forall (fun e => e <> B64.CloseClient /\ e <> B64.CloseServer) (fst run) /\
  snd cut = B64.Died B64.UnicodeDecodeError /\
  fst cut = [B64.Log (B64.Fmt "Received data: " 5);
             B64.Send (B64.Fmt "Data received: " 5)].
Proof.
  vm_compute. repeat split; try reflexivity.
  repeat (constructor; [split; discriminate|]). constructor.
Qed.

(** ** Sessions of the binary64 server *)

Lemma b64_replies_app (out1 out2 : list B64.event) :
  B64.replies (out1 ++ out2) = B64.replies out1 ++ B64.replies out2.
Proof.
  induction out1 as [|e out1 IH]; [reflexivity|].
  destruct e; simpl; rewrite IH; reflexivity.
Qed.

(** The loop body, case by case. *)
Lemma b64_serve_one_cases (log : float -> float)
      (float_of : string -> option float)
      (d : B64.AnomalyDetector) (p : B64.payload) :
  (p = B64.NotUtf8 /\
   B64.serve_one log float_of d p = ([], B64.Uncaught B64.UnicodeDecodeError)) \/
  (exists data, p = B64.Utf8 data /\ terminator data /\
     snd (B64.serve_one log float_of d p) = B64.Break /\
     B64.replies (fst (B64.serve_one log float_of d p)) = []) \/
  (exists data, p = B64.Utf8 data /\ ~ terminator data /\
     float_of data = None /\
     B64.serve_one log float_of d p = (B64.invalid_data data, B64.Continue d)) \/
  (exists data v, p = B64.Utf8 data /\ ~ terminator data /\
     float_of data = Some v /\
     ((exists a b,
         fst (B64.detect_anomaly log d v) = B64.Ok (a, b) /\
         B64.serve_one log float_of d p
         = ([B64.Log (B64.Fmt "Received data: " v);
             B64.Send (B64.response a b v)],
            B64.Continue (snd (B64.detect_anomaly log d v)))) \/
      (fst (B64.detect_anomaly log d v) = B64.Raise B64.ValueError /\
       B64.serve_one log float_of d p
       = (B64.Log (B64.Fmt "Received data: " v) :: B64.invalid_data data,
          B64.Continue (snd (B64.detect_anomaly log d v)))) \/
      (exists e, e <> B64.ValueError /\
         fst (B64.detect_anomaly log d v) = B64.Raise e /\
         B64.serve_one log float_of d p
         = ([B64.Log (B64.Fmt "Received data: " v)], B64.Uncaught e)))).
Proof.
  destruct p as [data|]; [|left; split; reflexivity].
  right. unfold B64.serve_one.
  destruct ((data =? "") || (data =? "exit"))%string eqn:E.
  - left. exists data. apply terminator_eqb in E. repeat split; assumption.
  - right. assert (Ht : ~ terminator data).
    { intro Ht. apply terminator_eqb in Ht. congruence. }
    destruct (float_of data) as [v|] eqn:Ef.
    + right. exists data, v. repeat split; try assumption.
      destruct (B64.detect_anomaly log d v) as [[[a b]|e] d1]; cbn [fst snd].
      * left. exists a, b. split; reflexivity.
      * destruct e; [right; right; eexists; repeat split; discriminate
                    |right; left; split; reflexivity
                    |right; right; eexists; repeat split; discriminate
                    |right; right; eexists; repeat split; discriminate].
    + left. exists data. repeat split; assumption.
Qed.

Lemma b64_serve_replies (log : float -> float)
      (float_of : string -> option float)
      (received : list B64.payload) (d : B64.AnomalyDetector) :
  (forall e, snd (B64.serve log float_of d received) <> B64.Died e) ->
  Forall2 (fun p m =>
             match p with
             | B64.Utf8 data =>
                 match float_of data with
                 | None => m = B64.Text "Invalid data"
                 | Some v => m = B64.Text "Invalid data" \/
                             exists a b, m = B64.response a b v
                 end
             | B64.NotUtf8 => False
             end)
          (B64.until_break received)
          (B64.replies (fst (B64.serve log float_of d received))).
Proof.
  revert d. induction received as [|p rest IH]; intros d Halive.
  - constructor.
  - cbn [B64.serve] in *.
    destruct (b64_serve_one_cases log float_of d p)
      as [[-> H]|[(data & -> & Ht & Hs & Hr)|[(data & -> & Ht & Hf & H)
          |(data & v & -> & Ht & Hf & [(a & b & _ & H)|[[_ H]|(e & _ & _ & H)]])]]].
    + rewrite H in Halive. exfalso. apply (Halive _ eq_refl).
    + cbn [B64.until_break]. apply terminator_eqb in Ht. rewrite Ht.
      destruct (B64.serve_one log float_of d (B64.Utf8 data)) as [out st].
      cbn [fst snd] in *. subst st. cbn [fst]. rewrite Hr. constructor.
    + cbn [B64.until_break]. rewrite (not_terminator_eqb _ Ht).
      rewrite H in *. specialize (IH d).
      destruct (B64.serve log float_of d rest) as [out1 fin]. cbn [fst snd] in *.
      unfold B64.invalid_data. cbn [app B64.replies].
      constructor; [rewrite Hf; reflexivity|apply IH, Halive].
    + cbn [B64.until_break]. rewrite (not_terminator_eqb _ Ht).
      rewrite H in *. specialize (IH (snd (B64.detect_anomaly log d v))).
      destruct (B64.serve log float_of _ rest) as [out1 fin]. cbn [fst snd] in *.
      cbn [app B64.replies].
      constructor; [rewrite Hf; right; exists a, b; reflexivity|apply IH, Halive].
    + cbn [B64.until_break]. rewrite (not_terminator_eqb _ Ht).
      rewrite H in *. specialize (IH (snd (B64.detect_anomaly log d v))).
      destruct (B64.serve log float_of _ rest) as [out1 fin]. cbn [fst snd] in *.
      unfold B64.invalid_data. cbn [app B64.replies].
      constructor; [rewrite Hf; left; reflexivity|apply IH, Halive].
    + rewrite H in Halive. exfalso. apply (Halive _ eq_refl).
Qed.

(** X12. In a session that no exception ends, the server sends exactly one
    reply per payload received before the terminator, in order, and none for
    the terminator: the literal [Invalid data] for a payload that [float]
    rejects, and for a number either one of the three formatted replies
    carrying its value or, after a ValueError inside the detector, the same
    literal. *)
Theorem one_reply_per_payload (log : float -> float)
        (float_of : string -> option float) (received : list B64.payload) :
  (forall e, snd (B64.start_server log float_of received) <> B64.Died e) ->
  Forall2 (fun p m =>
             match p with
             | B64.Utf8 data =>
                 match float_of data with
                 | None => m = B64.Text "Invalid data"
                 | Some v => m = B64.Text "Invalid data" \/
                             exists a b, m = B64.response a b v
                 end
             | B64.NotUtf8 => False
             end)
          (B64.until_break received)
          (B64.replies (fst (B64.start_server log float_of received))).
Proof.
  intro Halive.
  pose proof (b64_serve_replies log float_of received
                (B64.AnomalyDetector_init 50 3)) as H.
  unfold B64.start_server in *.
  destruct (B64.serve log float_of (B64.AnomalyDetector_init 50 3) received)
    as [out fin].
  cbn [fst snd] in *.
  destruct fin as [|d|e]; cbn [fst snd] in *.
  - rewrite b64_replies_app. cbn [B64.replies]. rewrite app_nil_r.
    apply H. discriminate.
  - apply H. discriminate.
  - exfalso. apply (Halive e eq_refl).
Qed.

(** X12 on a session of a number, a word and [exit]. *)
Lemma one_reply_per_payload_witness :
  Forall2 (fun p m =>
             match p with
             | B64.Utf8 data =>
                 match B64.float_of_str data with
                 | None => m = B64.Text "Invalid data"
                 | Some v => m = B64.Text "Invalid data" \/
                             exists a b, m = B64.response a b v
                 end
             | B64.NotUtf8 => False
             end)
          [B64.Utf8 "5"; B64.Utf8 "abc"]
          (B64.replies
             (fst (B64.start_server B64.log_2000 B64.float_of_str
                     [B64.Utf8 "5"; B64.Utf8 "abc"; B64.Utf8 "exit"]))).
Proof.
  apply (one_reply_per_payload B64.log_2000 B64.float_of_str
           [B64.Utf8 "5"; B64.Utf8 "abc"; B64.Utf8 "exit"]).
  intro e. vm_compute. discriminate.
Defined.

Lemma b64_serve_detector (log : float -> float)
      (float_of : string -> option float)
      (received : list B64.payload) (d0 d : B64.AnomalyDetector) :
  snd (B64.serve log float_of d0 received) = B64.Receiving d ->
  d = snd (B64.detections log d0 (B64.parsed float_of received)).
Proof.
  revert d0. induction received as [|p rest IH]; intros d0 H.
  - simpl in H. injection H as <-. reflexivity.
  - cbn [B64.serve] in H.
    destruct (b64_serve_one_cases log float_of d0 p)
      as [[-> H1]|[(data & -> & Ht & Hs & Hr)|[(data & -> & Ht & Hf & H1)
          |(data & v & -> & Ht & Hf & [(a & b & _ & H1)|[[_ H1]|(e & _ & _ & H1)]])]]].
    + rewrite H1 in H. discriminate.
    + destruct (B64.serve_one log float_of d0 (B64.Utf8 data)) as [out st].
      cbn [snd] in Hs. subst st. discriminate.
    + rewrite H1 in H. cbn [B64.parsed]. rewrite Hf. apply IH.
      destruct (B64.serve log float_of d0 rest). exact H.
    + rewrite H1 in H. cbn [B64.parsed]. rewrite Hf. cbn [B64.detections].
      destruct (B64.detect_anomaly log d0 v) as [r d1]. cbn [snd] in *.
      specialize (IH d1).
      destruct (B64.serve log float_of d1 rest).
      destruct (B64.detections log d1 (B64.parsed float_of rest)).
      apply IH. exact H.
    + rewrite H1 in H. cbn [B64.parsed]. rewrite Hf. cbn [B64.detections].
      destruct (B64.detect_anomaly log d0 v) as [r d1]. cbn [snd] in *.
      specialize (IH d1).
      destruct (B64.serve log float_of d1 rest).
      destruct (B64.detections log d1 (B64.parsed float_of rest)).
      apply IH. exact H.
    + rewrite H1 in H. discriminate.
Qed.

(** X13. While the loop is waiting for the next payload, the detector it
    holds is the one obtained by feeding a fresh [AnomalyDetector()] the
    values of the payloads that [float] accepted, in order: a rejected
    payload leaves the detector as it was. *)
Theorem session_detector_state (log : float -> float)
        (float_of : string -> option float)
        (received : list B64.payload) (d : B64.AnomalyDetector) :
  snd (B64.start_server log float_of received) = B64.Receiving d ->
  d = snd (B64.detections log (B64.AnomalyDetector_init 50 3)
                          (B64.parsed float_of received)).
Proof.
  intro H. apply (b64_serve_detector log float_of received).
  unfold B64.start_server in H.
  destruct (B64.serve log float_of (B64.AnomalyDetector_init 50 3) received)
    as [out fin].
  destruct fin; cbn [snd] in *; try discriminate. exact H.
Qed.

(** X13 on a session with a rejected payload between two values. *)
Lemma session_detector_state_witness :
  B64.window
    (snd (B64.detections B64.log_2000 (B64.AnomalyDetector_init 50 3)
            (B64.parsed B64.float_of_str
               [B64.Utf8 "5"; B64.Utf8 "abc"; B64.Utf8 "7"])))
  = [5; 7]%float.
Proof.
  rewrite <- (session_detector_state B64.log_2000 B64.float_of_str
                [B64.Utf8 "5"; B64.Utf8 "abc"; B64.Utf8 "7"]
                (snd (B64.detections B64.log_2000 (B64.AnomalyDetector_init 50 3)
                        [5; 7]%float))).
  - vm_compute. reflexivity.
  - vm_compute. reflexivity.
Defined.

(** X21. A payload that decodes, is neither empty nor [exit] and is not a
    number gets the reply [Invalid data], leaves the detector as it was and
    lets the loop continue; so after any number of such payloads the server
    is still receiving, with a fresh detector and one [Invalid data] sent per
    payload. *)
Theorem malformed_payload_handled (log : float -> float)
        (float_of : string -> option float) :
  (forall d data,
     ~ terminator data -> float_of data = None ->
     B64.serve_one log float_of d (B64.Utf8 data)
     = ([B64.Log (B64.Text ("Invalid data received: " ++ data));
         B64.Send (B64.Text "Invalid data")], B64.Continue d)) /\
  (forall received,
     Forall (B64.malformed float_of) received ->
     snd (B64.start_server log float_of received)
     = B64.Receiving (B64.AnomalyDetector_init 50 3) /\
     B64.replies (fst (B64.start_server log float_of received))
     = repeat (B64.Text "Invalid data") (length received)).
Proof.
  assert (H1 : forall d data,
             ~ terminator data -> float_of data = None ->
             B64.serve_one log float_of d (B64.Utf8 data)
             = (B64.invalid_data data, B64.Continue d)).
  { intros d data Ht Hf. unfold B64.serve_one.
    rewrite (not_terminator_eqb _ Ht), Hf. reflexivity. }
  split; [exact H1|].
  intros received Hall. unfold B64.start_server.
  assert (Hs : forall d,
             snd (B64.serve log float_of d received) = B64.Receiving d /\
             B64.replies (fst (B64.serve log float_of d received))
             = repeat (B64.Text "Invalid data") (length received)).
  { induction Hall as [|p rest (data & -> & Ht & Hf) _ IH]; intro d.
    - split; reflexivity.
    - cbn [B64.serve]. rewrite (H1 d data Ht Hf).
      destruct (IH d) as [IH1 IH2].
      destruct (B64.serve log float_of d rest) as [out fin].
      cbn [fst snd] in *. subst fin. split; [reflexivity|].
      unfold B64.invalid_data. cbn [app B64.replies length repeat].
      rewrite IH2. reflexivity. }
  destruct (Hs (B64.AnomalyDetector_init 50 3)) as [Hfin Hrep].
  destruct (B64.serve log float_of (B64.AnomalyDetector_init 50 3) received)
    as [out fin].
  cbn [fst snd] in *. subst fin. split; [reflexivity|exact Hrep].
Qed.

(** X21 on the payload [not_a_number]. *)
Lemma malformed_payload_handled_witness :
  B64.serve_one B64.log_2000 B64.float_of_str (B64.AnomalyDetector_init 50 3)
                (B64.Utf8 "not_a_number")
  = ([B64.Log (B64.Text "Invalid data received: not_a_number");
      B64.Send (B64.Text "Invalid data")],
     B64.Continue (B64.AnomalyDetector_init 50 3)).
Proof.
  apply (proj1 (malformed_payload_handled B64.log_2000 B64.float_of_str)).
  - intros [H|H]; discriminate.
  - vm_compute. reflexivity.
Defined.

(** Nothing that the loop writes is a [close()]. *)
Lemma b64_serve_no_close (log : float -> float)
      (float_of : string -> option float)
      (received : list B64.payload) (d : B64.AnomalyDetector) :
  Forall (fun e => e <> B64.CloseClient /\ e <> B64.CloseServer)
         (fst (B64.serve log float_of d received)).
Proof.
  revert d. induction received as [|p rest IH]; intro d; [constructor|].
  cbn [B64.serve].
  assert (H1 : Forall (fun e => e <> B64.CloseClient /\ e <> B64.CloseServer)
                      (fst (B64.serve_one log float_of d p))).
  { unfold B64.serve_one. destruct p as [data|]; [|constructor].
    destruct ((data =? "") || (data =? "exit"))%string;
      [repeat constructor; discriminate|].
    destruct (float_of data) as [v|];
      [|repeat constructor; discriminate].
    destruct (B64.detect_anomaly log d v) as [[[a b]|[| | |]] d1];
      repeat constructor; discriminate. }
  destruct (B64.serve_one log float_of d p) as [out [|d1|e]]; cbn [fst] in *;
    try assumption.
  specialize (IH d1). destruct (B64.serve log float_of d1 rest) as [out1 fin].
  cbn [fst] in *. apply Forall_app. split; assumption.
Qed.

Lemma b64_serve_left (log : float -> float)
      (float_of : string -> option float)
      (received : list B64.payload) (d : B64.AnomalyDetector) :
  snd (B64.serve log float_of d received) = B64.LoopLeft ->
  Exists B64.ends_session received.
Proof.
  revert d. induction received as [|p rest IH]; intros d H; [discriminate|].
  cbn [B64.serve] in H.
  destruct (b64_serve_one_cases log float_of d p)
    as [[-> H1]|[(data & -> & Ht & Hs & Hr)|[(data & -> & Ht & Hf & H1)
        |(data & v & -> & Ht & Hf & [(a & b & _ & H1)|[[_ H1]|(e & _ & _ & H1)]])]]];
    try (rewrite H1 in H);
    try discriminate;
    try (apply Exists_cons_tl;
         match type of H with
         | context [B64.serve log float_of ?d1 rest] =>
             apply (IH d1); destruct (B64.serve log float_of d1 rest); exact H
         end).
  apply Exists_cons_hd. exists data. split; [reflexivity|assumption].
Qed.

(** X22. The two sockets are closed exactly when the loop is left through
    [break], as the last two things the server does, and [break] is reached
    only on an empty payload or [exit]; a session that an exception ends
    closes neither. *)
Theorem sockets_closed_after_break (log : float -> float)
        (float_of : string -> option float) (received : list B64.payload) :
  (snd (B64.start_server log float_of received) = B64.LoopLeft ->
   Exists B64.ends_session received /\
   exists out,
     fst (B64.start_server log float_of received)
     = out ++ [B64.CloseClient; B64.CloseServer] /\
     Forall (fun e => e <> B64.CloseClient /\ e <> B64.CloseServer) out) /\
  (snd (B64.start_server log float_of received) <> B64.LoopLeft ->
   Forall (fun e => e <> B64.CloseClient /\ e <> B64.CloseServer)
          (fst (B64.start_server log float_of received))).
Proof.
  pose proof (b64_serve_no_close log float_of received
                (B64.AnomalyDetector_init 50 3)) as Hno.
  pose proof (b64_serve_left log float_of received
                (B64.AnomalyDetector_init 50 3)) as Hleft.
  unfold B64.start_server.
  destruct (B64.serve log float_of (B64.AnomalyDetector_init 50 3) received)
    as [out fin].
  cbn [fst snd] in *. destruct fin as [|d|e]; cbn [fst snd]; split;
    try discriminate; try contradiction; try (intros _; assumption).
  intros _. split; [apply Hleft; reflexivity|].
  exists out. split; [reflexivity|assumption].
Qed.

(** X22 on a session of one number and [exit]: the loop is left through
    [break], and the two [close()] calls end what the server does. *)
Lemma sockets_closed_after_break_witness :
  snd (B64.start_server B64.log_2000 B64.float_of_str
         [B64.Utf8 "5"; B64.Utf8 "exit"]) = B64.LoopLeft /\
  Exists B64.ends_session [B64.Utf8 "5"; B64.Utf8 "exit"] /\
  exists out,
    fst (B64.start_server B64.log_2000 B64.float_of_str
           [B64.Utf8 "5"; B64.Utf8 "exit"])
    = out ++ [B64.CloseClient; B64.CloseServer] /\
    Forall (fun e => e <> B64.CloseClient /\ e <> B64.CloseServer) out.
Proof.
  assert (H : snd (B64.start_server B64.log_2000 B64.float_of_str
                     [B64.Utf8 "5"; B64.Utf8 "exit"]) = B64.LoopLeft)
    by (vm_compute; reflexivity).
  split; [exact H|].
  exact (proj1 (sockets_closed_after_break B64.log_2000 B64.float_of_str
                  [B64.Utf8 "5"; B64.Utf8 "exit"]) H).
Defined.

(** ** C10: what counts as a number *)

